(** * EmergencyCall / EmergencyConnect: the SOS trigger and dispatch pipeline

    A shallow embedding of the JavaScript services of the repository
    (ContactService, TestableLocationService, EmergencyService,
    PowerButtonService and the EmergencyConnect core) together with the
    properties stated about them.

    Conventions of the embedding.
    - A JavaScript value is a [jsval]: the JSON-like values (no functions,
      getters or boxed primitives).  Numbers are IEEE binary64 floats.
    - A JavaScript string is a [string] read as its sequence of code
      units, every code unit below 256.
    - A method of a class with mutable fields is a computation in the
      state-and-exception monad [M S]: an exception keeps the mutations
      made before it was thrown, as in JavaScript.
    - Clock readings ([new Date()], [Date.now()]) and timer identifiers are
      explicit: a clock value is an argument, a pending [setTimeout] is an
      entry of a timer table in the state. *)

From Stdlib Require Import ZArith Floats Ascii String List Bool Lia.
From stdpp Require Import base option list strings gmap.

Set Warnings "-register-all".

Local Open Scope Z_scope.
Local Open Scope string_scope.

(** ** JavaScript values *)

Module JS.

Inductive jsval : Type :=
| JUndefined
| JNull
| JBool (b : bool)
| JNum (x : float)
| JStr (s : string)
| JArr (items : list jsval)
| JObj (props : list (string * jsval)).

(** Exceptions thrown by the services.  An [Error] is identified by the
    message it is constructed with. *)
Inductive exn : Type :=
| TypeError
| CONTACT_REQUIRED
| NO_CONTACTS
| DUPLICATE_PHONE
| MAX_CONTACTS_EXCEEDED
| INVALID_PHONE_FORMAT
| InvalidContactsIncluded (phones : list string)
| NoContactsRegistered
| InvalidPhoneNumber (phone : string)
| InvalidPhoneNumberFormat
| InvalidLocationFormat
| InvalidButtonConfigError
| InvalidContactError.

(** [!!v] of JavaScript: ToBoolean. *)
Definition truthy (v : jsval) : bool :=
  match v with
  | JUndefined | JNull => false
  | JBool b => b
  | JNum x => negb (PrimFloat.eqb x 0%float || PrimFloat.is_nan x)
  | JStr s => negb (String.eqb s "")
  | JArr _ | JObj _ => true
  end.

Inductive jstype := TUndefined | TObject | TBoolean | TNumber | TString.

Definition typeof (v : jsval) : jstype :=
  match v with
  | JUndefined => TUndefined
  | JNull | JArr _ | JObj _ => TObject
  | JBool _ => TBoolean
  | JNum _ => TNumber
  | JStr _ => TString
  end.

Fixpoint assoc (k : string) (ps : list (string * jsval)) : jsval :=
  match ps with
  | [] => JUndefined
  | (k', v) :: ps' => if String.eqb k k' then v else assoc k ps'
  end.

(** [v.k] for the property names the services read ([name], [phone],
    [priority], [latitude], [longitude]): a [TypeError] on [undefined] and
    [null], the own property of a plain object, and [undefined] on
    primitives and arrays, which have no such property. *)
Definition get_prop (v : jsval) (k : string) : option jsval :=
  match v with
  | JUndefined | JNull => None
  | JObj ps => Some (assoc k ps)
  | _ => Some JUndefined
  end.

(** [a || b] on values. *)
Definition or_else (a b : jsval) : jsval := if truthy a then a else b.

(** *** Strings *)

Definition is_digit (c : ascii) : bool :=
  let n := nat_of_ascii c in (48 <=? n)%nat && (n <=? 57)%nat.

(** The class [\s] of a regular expression, which is also what [trim]
    strips: TAB, LF, VT, FF, CR, SPACE and NBSP among the code units
    below 256. *)
Definition is_space (c : ascii) : bool :=
  let n := nat_of_ascii c in
  ((9 <=? n)%nat && (n <=? 13)%nat) || (n =? 32)%nat || (n =? 160)%nat.

Fixpoint str_filter (p : ascii → bool) (s : string) : string :=
  match s with
  | EmptyString => EmptyString
  | String c r => if p c then String c (str_filter p r) else str_filter p r
  end.

Fixpoint str_forall (p : ascii → bool) (s : string) : bool :=
  match s with
  | EmptyString => true
  | String c r => p c && str_forall p r
  end.

Fixpoint starts_with (pre s : string) : bool :=
  match pre, s with
  | EmptyString, _ => true
  | String a pre', String b s' => Ascii.eqb a b && starts_with pre' s'
  | String _ _, EmptyString => false
  end.

(** [s.includes(sub)]. *)
Fixpoint includes (sub s : string) : bool :=
  starts_with sub s ||
  match s with
  | EmptyString => false
  | String _ r => includes sub r
  end.

(** [s.trim().length === 0]. *)
Definition trim_is_empty (s : string) : bool := str_forall is_space s.

End JS.

Import JS.

(** ** The state-and-exception monad of a class instance *)

Inductive outcome (A : Type) : Type :=
| Return (a : A)
| Throw (e : exn).
Arguments Return {A} a.
Arguments Throw {A} e.

Definition M (S A : Type) : Type := S → outcome A * S.

Definition ret {S A} (a : A) : M S A := fun s => (Return a, s).
Definition throw {S A} (e : exn) : M S A := fun s => (Throw e, s).
Definition bind {S A B} (m : M S A) (k : A → M S B) : M S B :=
  fun s => match m s with
           | (Return a, s') => k a s'
           | (Throw e, s') => (Throw e, s')
           end.
Definition get {S} : M S S := fun s => (Return s, s).
Definition modify {S} (f : S → S) : M S unit := fun s => (Return tt, f s).
(** [try { m } catch (e) { h e }]. *)
Definition try_catch {S A} (m : M S A) (h : exn → M S A) : M S A :=
  fun s => match m s with
           | (Return a, s') => (Return a, s')
           | (Throw e, s') => h e s'
           end.
(** A pure step that may throw. *)
Definition lift_opt {S A} (e : exn) (o : option A) : M S A :=
  match o with Some a => ret a | None => throw e end.

Declare Scope js_scope.
Delimit Scope js_scope with js.
Notation "'do' x <- m ; k" := (bind m (fun x => k))
  (at level 10, x name, m at level 100, k at level 200) : js_scope.
Notation "m ;; k" := (bind m (fun _ => k))
  (at level 100, k at level 200, right associativity) : js_scope.
Local Open Scope js_scope.

Definition exec {S A} (m : M S A) (s : S) : S := snd (m s).
Definition eval {S A} (m : M S A) (s : S) : outcome A := fst (m s).

(** ** ContactService.js *)

Module ContactService.

Definition MAX_CONTACTS : nat := 10.

(** The default of [contact.name || ...]; the literal stands for the text
    of the constant. *)
Definition NAME_UNSET : string := "名前未設定".

(** A contact as [_normalizeContact] builds it. *)
Record contact : Type := {
  name : jsval;
  phone : string;
  addedAt : Z;
  priority : jsval
}.

Record t : Type := {
  _contactsByPhone : gmap string contact;
  _contactOrder : list contact
}.

(** [constructor()] *)
Definition new : t := {| _contactsByPhone := ∅; _contactOrder := [] |}.

(** [phone.replace(/[-\s()]/g, '')] *)
Definition _normalizePhoneNumber (phone : string) : string :=
  str_filter (fun c => negb (Ascii.eqb c "-" || is_space c
                             || Ascii.eqb c "(" || Ascii.eqb c ")")) phone.

(** [\d{9,10}$] on the rest of the string. *)
Definition digits_9_10 (s : string) : bool :=
  str_forall is_digit s &&
  ((String.length s =? 9)%nat || (String.length s =? 10)%nat).

(** [/^(0\d{9,10}|(\+81|81)\d{9,10})$/.test(s)] *)
Definition phone_regex (s : string) : bool :=
  match s with
  | String "0" r => digits_9_10 r
  | String "+" (String "8" (String "1" r)) => digits_9_10 r
  | String "8" (String "1" r) => digits_9_10 r
  | _ => false
  end.

Definition _isValidPhoneNumber (phone : string) : bool :=
  phone_regex (_normalizePhoneNumber phone).

Definition getContactCount (s : t) : nat := size (_contactsByPhone s).

Definition hasEmergencyContacts (s : t) : bool := (0 <? getContactCount s)%nat.

Definition _validateContactFormat (c : jsval) : M t unit :=
  if negb (truthy c) || negb (match typeof c with TObject => true | _ => false end)
  then throw CONTACT_REQUIRED
  else
    match get_prop c "phone" with
    | Some (JStr p) =>
        if negb (truthy (JStr p)) then throw CONTACT_REQUIRED
        else if negb (_isValidPhoneNumber p) then throw INVALID_PHONE_FORMAT
        else ret tt
    | _ => throw CONTACT_REQUIRED
    end.

Definition _checkContactLimits : M t unit :=
  do s <- get;
  if (MAX_CONTACTS <=? getContactCount s)%nat
  then throw MAX_CONTACTS_EXCEEDED else ret tt.

(** The lookup is made with the phone as the caller wrote it. *)
Definition _checkDuplicatePhone (phone : string) : M t unit :=
  do s <- get;
  if bool_decide (is_Some (_contactsByPhone s !! phone))
  then throw DUPLICATE_PHONE else ret tt.

(** [phone.replace] exists on strings only. *)
Definition _normalizeContact (now : Z) (c : jsval) : M t contact :=
  do n <- lift_opt TypeError (get_prop c "name");
  do p <- lift_opt TypeError (get_prop c "phone");
  do p' <- match p with JStr s => ret (_normalizePhoneNumber s) | _ => throw TypeError end;
  do pr <- lift_opt TypeError (get_prop c "priority");
  ret {| name := or_else n (JStr NAME_UNSET);
         phone := p';
         addedAt := now;
         priority := or_else pr (JStr "normal") |}.

Definition _addValidatedContact (now : Z) (c : jsval) : M t unit :=
  do nc <- _normalizeContact now c;
  modify (fun s => {| _contactsByPhone := <[phone nc := nc]> (_contactsByPhone s);
                      _contactOrder := _contactOrder s ++ [nc] |}).

Definition _clearAllContacts : M t unit :=
  modify (fun _ => {| _contactsByPhone := ∅; _contactOrder := [] |}).

(** [contacts.forEach(...)] with the [try]/[catch] around each entry. *)
Fixpoint forEach_add (now : Z) (cs : list jsval) : M t unit :=
  match cs with
  | [] => ret tt
  | c :: cs' =>
      try_catch (_addValidatedContact now c) (fun _ => ret tt) ;;
      forEach_add now cs'
  end.

Definition setEmergencyContacts (now : Z) (contacts : jsval) : M t unit :=
  let contacts := match contacts with JArr l => l | _ => [] end in
  _clearAllContacts ;;
  forEach_add now contacts.

Definition getEmergencyContacts (s : t) : list contact := _contactOrder s.

Definition addEmergencyContact (now : Z) (c : jsval) : M t unit :=
  _validateContactFormat c ;;
  _checkContactLimits ;;
  do p <- lift_opt TypeError (get_prop c "phone");
  do p <- match p with JStr s => ret s | _ => throw TypeError end;
  _checkDuplicatePhone p ;;
  _addValidatedContact now c.

Definition removeEmergencyContact (ph : string) : M t bool :=
  do s <- get;
  if bool_decide (is_Some (_contactsByPhone s !! ph)) then
    modify (fun s => {| _contactsByPhone := delete ph (_contactsByPhone s);
                        _contactOrder :=
                          List.filter (fun c => negb (String.eqb (phone c) ph))
                                      (_contactOrder s) |}) ;;
    ret true
  else ret false.

Definition findContactByPhone (ph : string) (s : t) : option contact :=
  _contactsByPhone s !! ph.

Record validation : Type := {
  isValid : bool;
  contactCount : nat;
  validContacts : nat
}.

Definition validateEmergencyContacts : M t validation :=
  do s <- get;
  if negb (hasEmergencyContacts s) then throw NO_CONTACTS
  else
    let invalidContacts :=
      List.filter (fun c => negb (_isValidPhoneNumber (phone c))) (_contactOrder s) in
    if (0 <? length invalidContacts)%nat
    then throw (InvalidContactsIncluded (map phone invalidContacts))
    else ret {| isValid := true;
                contactCount := getContactCount s;
                validContacts := getContactCount s - length invalidContacts |}.

Definition reset : M t unit := _clearAllContacts.

End ContactService.

(** ** TestableLocationService.js *)

Module TestableLocationService.

(** A stored location is the plain object made by [{...location}]: its own
    properties. *)
Definition location : Type := list (string * jsval).

Record t : Type := {
  _currentLocation : option location;
  _lastKnownLocation : option location;
  _isLocationUnavailable : bool
}.

Definition new : t :=
  {| _currentLocation := None; _lastKnownLocation := None;
     _isLocationUnavailable := false |}.

(** [lat >= -90 && lat <= 90 && lng >= -180 && lng <= 180] on binary64. *)
Definition _isValidCoordinate (lat lng : float) : bool :=
  PrimFloat.leb (-90)%float lat && PrimFloat.leb lat 90%float &&
  PrimFloat.leb (-180)%float lng && PrimFloat.leb lng 180%float.

Definition _isValidLocationData (l : jsval) : bool :=
  truthy l &&
  match get_prop l "latitude", get_prop l "longitude" with
  | Some (JNum lat), Some (JNum lng) => _isValidCoordinate lat lng
  | _, _ => false
  end.

(** [null] for a falsy argument, the argument itself when it is valid. *)
Definition _validateLocation (l : jsval) : M t (option jsval) :=
  if negb (truthy l) then ret None
  else if negb (_isValidLocationData l) then throw InvalidLocationFormat
  else ret (Some l).

(** [{...v}]: the own properties of an object; a primitive has none.
    (Arrays and strings would spread their indices; no valid location is
    one, see [valid_is_object].) *)
Definition spread (v : jsval) : location :=
  match v with JObj ps => ps | _ => [] end.

Definition _updateLastKnownLocation (l : jsval) : M t unit :=
  modify (fun s => {| _currentLocation := _currentLocation s;
                      _lastKnownLocation := Some (spread l);
                      _isLocationUnavailable := _isLocationUnavailable s |}).

Definition set_current (o : option location) : M t unit :=
  modify (fun s => {| _currentLocation := o;
                      _lastKnownLocation := _lastKnownLocation s;
                      _isLocationUnavailable := _isLocationUnavailable s |}).

Definition set_lastKnown (o : option location) : M t unit :=
  modify (fun s => {| _currentLocation := _currentLocation s;
                      _lastKnownLocation := o;
                      _isLocationUnavailable := _isLocationUnavailable s |}).

Definition setCurrentLocation (l : jsval) : M t unit :=
  try_catch
    (do v <- _validateLocation l;
     set_current (spread <$> v) ;;
     match v with
     | Some l' => _updateLastKnownLocation l'
     | None => ret tt
     end)
    (fun _ => set_current None).

Definition setLastKnownLocation (l : jsval) : M t unit :=
  try_catch
    (do v <- _validateLocation l;
     set_lastKnown (spread <$> v))
    (fun _ => set_lastKnown None).

(** [Boolean(unavailable)] *)
Definition setLocationUnavailable (unavailable : jsval) : M t unit :=
  modify (fun s => {| _currentLocation := _currentLocation s;
                      _lastKnownLocation := _lastKnownLocation s;
                      _isLocationUnavailable := truthy unavailable |}).

Definition getCurrentLocation (s : t) : option location :=
  if _isLocationUnavailable s then None else _currentLocation s.

Definition getLastKnownLocation (s : t) : option location :=
  _lastKnownLocation s.

(** [x && this._isValidLocationData(x) ? x : (fall through)] *)
Definition valid_or_null (o : option location) : option location :=
  match o with
  | Some l => if _isValidLocationData (JObj l) then Some l else None
  | None => None
  end.

Definition getBestAvailableLocation (s : t) : option location :=
  match valid_or_null (getCurrentLocation s) with
  | Some current => Some current
  | None => valid_or_null (getLastKnownLocation s)
  end.

Definition reset : M t unit := modify (fun _ => new).

End TestableLocationService.

(** ** EmergencyService.js *)

Module EmergencyService.

Module CS := ContactService.
Module LS := TestableLocationService.

(** [MessageTemplates.EMERGENCY_ALERT]; the literal stands for its text. *)
Definition EMERGENCY_ALERT : string := "🚨緊急事態が発生しました。助けが必要です。".

Inductive SendResult := SUCCESS | FAILED | INVALID_PHONE | NETWORK_ERROR.

(** The frozen message object of [_createEmergencyMessage]. *)
Record message : Type := {
  content : string;
  location : option LS.location;
  timestamp : Z;
  messageId : string
}.

(** An entry of [_sentMessages]: [{...message, sentAt, status}]. *)
Record sentMessage : Type := {
  sent_message : message;
  sentAt : Z;
  status : SendResult
}.

(** What a per-contact promise resolves to: the object returned by
    [_sendMessageToContact], or the one built by the [.catch] handler of
    [_sendToAllContacts]. *)
Record sendValue : Type := {
  sv_phone : string;
  sv_result : SendResult;
  sv_sentAt : option Z;
  sv_error : option exn
}.

(** An element of the array [Promise.allSettled] resolves to. *)
Inductive settled (A : Type) : Type :=
| fulfilled (value : A)
| rejected (reason : exn).
Arguments fulfilled {A} value.
Arguments rejected {A} reason.

Record notificationData : Type := {
  nd_id : nat;
  nd_timestamp : Z;
  nd_location : option LS.location;
  nd_message : message;
  nd_contacts : list CS.contact
}.

Inductive historyEntry : Type :=
| Completed (nd : notificationData) (sendResults : list (settled sendValue))
            (completedAt : Z)
| Failed (id : nat) (error : exn) (failedAt : Z).

Record statistics : Type := {
  totalNotifications : nat;
  successfulSends : nat;
  failedSends : nat;
  lastNotificationTime : option Z
}.

Record t : Type := {
  _locationService : LS.t;
  _contactService : CS.t;
  _notificationHistory : list historyEntry;
  _sentMessages : gmap string sentMessage;
  _lastNotificationId : nat;
  _statistics : statistics
}.

Definition initial_statistics : statistics :=
  {| totalNotifications := 0; successfulSends := 0; failedSends := 0;
     lastNotificationTime := None |}.

(** [new EmergencyService(locationService, contactService)] *)
Definition new (ls : LS.t) (cs : CS.t) : t :=
  {| _locationService := ls; _contactService := cs;
     _notificationHistory := []; _sentMessages := ∅;
     _lastNotificationId := 0; _statistics := initial_statistics |}.

(** The response object of [_buildSuccessResponse]. *)
Record response : Type := {
  success : bool;
  notificationId : nat;
  sentTo : nat;
  successful : nat;
  failed : nat;
  resp_timestamp : Z
}.

(** Clock readings and the random message id of one call: [t_call] is the
    time of the synchronous part, [t_sent] the time at which the 10 ms
    delays of the simulated sends have passed. *)
Record env : Type := { t_call : Z; t_sent : Z; fresh_messageId : string }.

Definition with_stats (f : statistics → statistics) : M t unit :=
  modify (fun s => {| _locationService := _locationService s;
                      _contactService := _contactService s;
                      _notificationHistory := _notificationHistory s;
                      _sentMessages := _sentMessages s;
                      _lastNotificationId := _lastNotificationId s;
                      _statistics := f (_statistics s) |}).

Definition push_history (h : historyEntry) : M t unit :=
  modify (fun s => {| _locationService := _locationService s;
                      _contactService := _contactService s;
                      _notificationHistory := _notificationHistory s ++ [h];
                      _sentMessages := _sentMessages s;
                      _lastNotificationId := _lastNotificationId s;
                      _statistics := _statistics s |}).

(** A call of a method of [this._contactService]. *)
Definition on_contacts {A} (m : M CS.t A) : M t A :=
  fun s =>
    let '(r, cs) := m (_contactService s) in
    (r, {| _locationService := _locationService s;
           _contactService := cs;
           _notificationHistory := _notificationHistory s;
           _sentMessages := _sentMessages s;
           _lastNotificationId := _lastNotificationId s;
           _statistics := _statistics s |}).

(** [++this._lastNotificationId] *)
Definition _generateNotificationId : M t nat :=
  modify (fun s => {| _locationService := _locationService s;
                      _contactService := _contactService s;
                      _notificationHistory := _notificationHistory s;
                      _sentMessages := _sentMessages s;
                      _lastNotificationId := S (_lastNotificationId s);
                      _statistics := _statistics s |}) ;;
  do s <- get; ret (_lastNotificationId s).

Definition _validatePrerequisites : M t unit :=
  do validation <- on_contacts CS.validateEmergencyContacts;
  if negb (CS.isValid validation) then throw NoContactsRegistered else ret tt.

Definition _createEmergencyMessage (e : env) (loc : option LS.location) (ts : Z)
  : message :=
  {| content := EMERGENCY_ALERT; location := loc; timestamp := ts;
     messageId := fresh_messageId e |}.

Definition _buildNotificationData (e : env) (id : nat) : M t notificationData :=
  do s <- get;
  let timestamp := t_call e in
  let location := LS.getBestAvailableLocation (_locationService s) in
  ret {| nd_id := id;
         nd_timestamp := timestamp;
         nd_location := location;
         nd_message := _createEmergencyMessage e location timestamp;
         nd_contacts := CS.getEmergencyContacts (_contactService s) |}.

(** [!phone || phone.includes('INVALID') || phone.trim().length === 0] *)
Definition _isInvalidPhoneNumber (phone : string) : bool :=
  negb (truthy (JStr phone)) || includes "INVALID" phone || trim_is_empty phone.

Definition _simulateMessageSending (phone : string) (msg : message) : M t unit :=
  if includes "INVALID" phone then throw InvalidPhoneNumberFormat else ret tt.

Definition _sendMessageToContact (e : env) (phone : string) (msg : message)
  : M t sendValue :=
  try_catch
    ((if _isInvalidPhoneNumber phone then throw (InvalidPhoneNumber phone) else ret tt) ;;
     _simulateMessageSending phone msg ;;
     modify (fun s =>
       {| _locationService := _locationService s;
          _contactService := _contactService s;
          _notificationHistory := _notificationHistory s;
          _sentMessages :=
            <[phone := {| sent_message := msg; sentAt := t_sent e; status := SUCCESS |}]>
              (_sentMessages s);
          _lastNotificationId := _lastNotificationId s;
          _statistics := _statistics s |}) ;;
     with_stats (fun st => {| totalNotifications := totalNotifications st;
                              successfulSends := S (successfulSends st);
                              failedSends := failedSends st;
                              lastNotificationTime := lastNotificationTime st |}) ;;
     ret {| sv_phone := phone; sv_result := SUCCESS;
            sv_sentAt := Some (t_sent e); sv_error := None |})
    (fun error =>
       with_stats (fun st => {| totalNotifications := totalNotifications st;
                                successfulSends := successfulSends st;
                                failedSends := S (failedSends st);
                                lastNotificationTime := lastNotificationTime st |}) ;;
       throw error).

(** [p.catch(h)]: a rejection of [p] becomes the fulfilment with [h error]. *)
Definition promise_catch {S A} (p : M S A) (h : exn → A) : M S A :=
  try_catch p (fun error => ret (h error)).

(** [Promise.allSettled(ps)]: every promise runs to its end and is
    reported with its status; the sends touch disjoint parts of the state,
    so running them in array order gives the state in which all have
    settled. *)
Fixpoint allSettled {S A} (ps : list (M S A)) : M S (list (settled A)) :=
  match ps with
  | [] => ret []
  | p :: ps' =>
      do r <- (fun s => match p s with
                        | (Return a, s') => (Return (fulfilled a), s')
                        | (Throw err, s') => (Return (rejected err), s')
                        end);
      do rs <- allSettled ps';
      ret (r :: rs)
  end.

Definition _sendToAllContacts (e : env) (nd : notificationData)
  : M t (list (settled sendValue)) :=
  let sendPromises :=
    map (fun contact =>
           promise_catch
             (_sendMessageToContact e (CS.phone contact) (nd_message nd))
             (fun error => {| sv_phone := CS.phone contact; sv_result := FAILED;
                              sv_sentAt := None; sv_error := Some error |}))
        (nd_contacts nd) in
  allSettled sendPromises.

Definition _recordNotificationResult (e : env) (nd : notificationData)
    (sendResults : list (settled sendValue)) : M t unit :=
  push_history (Completed nd sendResults (t_sent e)) ;;
  with_stats (fun st => {| totalNotifications := S (totalNotifications st);
                           successfulSends := successfulSends st;
                           failedSends := failedSends st;
                           lastNotificationTime := Some (t_sent e) |}).

Definition _recordFailedNotification (e : env) (id : nat) (error : exn) : M t unit :=
  push_history (Failed id error (t_call e)).

Definition is_fulfilled {A} (r : settled A) : bool :=
  match r with fulfilled _ => true | rejected _ => false end.

Definition _buildSuccessResponse (nd : notificationData)
    (sendResults : list (settled sendValue)) : response :=
  let successful := length (List.filter is_fulfilled sendResults) in
  let failed := length (List.filter (fun r => negb (is_fulfilled r)) sendResults) in
  {| success := true;
     notificationId := nd_id nd;
     sentTo := length (nd_contacts nd);
     successful := successful;
     failed := failed;
     resp_timestamp := nd_timestamp nd |}.

(** The promise of [sendEmergencyNotification()] once it has settled:
    [Return] is its fulfilment, [Throw] its rejection. *)
Definition sendEmergencyNotification (e : env) : M t response :=
  do notificationId <- _generateNotificationId;
  try_catch
    (_validatePrerequisites ;;
     do notificationData <- _buildNotificationData e notificationId;
     do sendResults <- _sendToAllContacts e notificationData;
     _recordNotificationResult e notificationData sendResults ;;
     ret (_buildSuccessResponse notificationData sendResults))
    (fun error =>
       _recordFailedNotification e notificationId error ;;
       throw error).

Definition isMessageSentTo (phone : string) (s : t) : bool :=
  bool_decide (is_Some (_sentMessages s !! phone)).

Definition getMessageSentTo (phone : string) (s : t) : option sentMessage :=
  _sentMessages s !! phone.

Definition getNotificationCount (s : t) : nat := totalNotifications (_statistics s).

Definition isNotificationSent (s : t) : bool := (0 <? getNotificationCount s)%nat.

(** What [getLastSentMessage] returns: [null] on an empty history, else the
    [message] property of the newest entry, which a failed entry lacks. *)
Inductive lastMessage : Type :=
| NoHistory
| NoMessageProperty
| LastMessage (m : message).

Definition getLastSentMessage (s : t) : lastMessage :=
  match last (_notificationHistory s) with
  | None => NoHistory
  | Some (Completed nd _ _) => LastMessage (nd_message nd)
  | Some (Failed _ _ _) => NoMessageProperty
  end.

Definition getNotificationHistory (s : t) : list historyEntry := _notificationHistory s.

Definition getStatistics (s : t) : statistics := _statistics s.

(** [reset()]: the history, the sent messages, the id counter and the
    statistics are cleared, and both injected services are reset. *)
Definition reset : M t unit :=
  modify (fun s =>
    {| _locationService := exec LS.reset (_locationService s);
       _contactService := exec CS.reset (_contactService s);
       _notificationHistory := [];
       _sentMessages := ∅;
       _lastNotificationId := 0;
       _statistics := initial_statistics |}).

End EmergencyService.

(** ** Timers: [setTimeout] and [clearTimeout] of the event loop *)

Module Timers.

Section Table.
Context {A : Type}.

(** A pending timeout: its handle, the time it is due, what it runs. *)
Record timer : Type := { id : nat; due : Z; action : A }.

Record table : Type := { pending : list timer; next_id : nat }.

(** Handles are positive, hence truthy. *)
Definition empty : table := {| pending := []; next_id := 1 |}.

Definition setTimeout (now delay : Z) (a : A) (tb : table) : nat * table :=
  (next_id tb,
   {| pending := pending tb ++ [{| id := next_id tb; due := now + delay; action := a |}];
      next_id := S (next_id tb) |}).

Definition clearTimeout (h : nat) (tb : table) : table :=
  {| pending := List.filter (fun x => negb (id x =? h)%nat) (pending tb);
     next_id := next_id tb |}.

(** The earliest timer of a list, the first armed among equals. *)
Fixpoint first_min (l : list timer) : option timer :=
  match l with
  | [] => None
  | x :: r =>
      match first_min r with
      | Some y => if (due x <=? due y)%Z then Some x else Some y
      | None => Some x
      end
  end.

(** The timer that fires next when the clock has reached [t]. *)
Definition next_due (t : Z) (tb : table) : option timer :=
  first_min (List.filter (fun x => (due x <=? t)%Z) (pending tb)).

End Table.
Arguments timer : clear implicits.
Arguments table : clear implicits.

(** The event loop of a world [W] that owns a timer table and a clock:
    time passes up to [t], and every timeout due by then fires, in order
    of due time.  The callbacks of the services arm no timer, so the number
    of pending timers bounds the number of firings. *)
Section Loop.
Context {A W : Type}.
Variable get_table : W → table A.
Variable set_table : table A → W → W.
Variable get_clock : W → Z.
Variable set_clock : Z → W → W.
Variable run_action : A → W → W.

Definition fire (x : timer A) (w : W) : W :=
  run_action (action x)
    (set_clock (Z.max (get_clock w) (due x))
       (set_table (clearTimeout (id x) (get_table w)) w)).

Fixpoint run_due (fuel : nat) (t : Z) (w : W) : W :=
  match fuel with
  | O => w
  | S fuel' =>
      match next_due t (get_table w) with
      | None => w
      | Some x => run_due fuel' t (fire x w)
      end
  end.

(** [d] milliseconds pass. *)
Definition advance (d : Z) (w : W) : W :=
  let t := get_clock w + d in
  let w' := run_due (length (pending (get_table w))) t w in
  set_clock (Z.max (get_clock w') t) w'.

End Loop.

End Timers.

(** ** PowerButtonService.js *)

Module PowerButtonService.

Module ES := EmergencyService.

Definition PRESS_TIMEOUT_MS : Z := 3000.
Definition REQUIRED_PRESS_COUNT : nat := 3.

Inductive States := IDLE | COUNTING | TRIGGERED.

Record t : Type := {
  _pressCount : nat;
  _pressTimeout : option nat;
  _state : States
}.

(** The callback of the only timeout of this service. *)
Inductive callback := ResetToIdle.

(** The service, the emergency service it dispatches to (injected, or the
    singleton), the pending timeouts and the clock. *)
Record world : Type := {
  svc : t;
  emergency : ES.t;
  timers : Timers.table callback;
  clock : Z
}.

Definition new : t := {| _pressCount := 0; _pressTimeout := None; _state := IDLE |}.

Definition init (es : ES.t) (now : Z) : world :=
  {| svc := new; emergency := es; timers := Timers.empty; clock := now |}.

Definition set_svc (f : t → t) : M world unit :=
  modify (fun w => {| svc := f (svc w); emergency := emergency w;
                      timers := timers w; clock := clock w |}).

Definition set_timers (tb : Timers.table callback) (w : world) : world :=
  {| svc := svc w; emergency := emergency w; timers := tb; clock := clock w |}.

Definition set_clock (c : Z) (w : world) : world :=
  {| svc := svc w; emergency := emergency w; timers := timers w; clock := c |}.

Definition _incrementPressCount : M world unit :=
  set_svc (fun s => {| _pressCount := S (_pressCount s);
                       _pressTimeout := _pressTimeout s;
                       _state := COUNTING |}).

Definition _clearExistingTimeout : M world unit :=
  do w <- get;
  match _pressTimeout (svc w) with
  | Some h =>
      modify (set_timers (Timers.clearTimeout h (timers w))) ;;
      set_svc (fun s => {| _pressCount := _pressCount s;
                           _pressTimeout := None;
                           _state := _state s |})
  | None => ret tt
  end.

Definition _shouldTriggerEmergency (s : t) : bool :=
  (_pressCount s =? REQUIRED_PRESS_COUNT)%nat.

Definition _isValidPressCount (s : t) : bool :=
  (_pressCount s <? REQUIRED_PRESS_COUNT)%nat.

Definition _startTimeout : M world unit :=
  do w <- get;
  let '(h, tb) := Timers.setTimeout (clock w) PRESS_TIMEOUT_MS ResetToIdle (timers w) in
  modify (set_timers tb) ;;
  set_svc (fun s => {| _pressCount := _pressCount s;
                       _pressTimeout := Some h;
                       _state := _state s |}).

(** [sendEmergencyNotification()] is called and its promise dropped: a
    rejection reaches nobody.  The press counter never reads the emergency
    service, so the notification, asynchronous in the source, is run to
    its end at the call.  [mid] is the random message id it draws. *)
Definition _triggerEmergency (mid : string) : M world unit :=
  set_svc (fun s => {| _pressCount := _pressCount s;
                       _pressTimeout := _pressTimeout s;
                       _state := TRIGGERED |}) ;;
  _clearExistingTimeout ;;
  modify (fun w =>
    let e := {| ES.t_call := clock w; ES.t_sent := clock w + 10;
                ES.fresh_messageId := mid |} in
    {| svc := svc w;
       emergency := exec (ES.sendEmergencyNotification e) (emergency w);
       timers := timers w; clock := clock w |}).

Definition _resetToIdle : M world unit :=
  set_svc (fun s => {| _pressCount := 0;
                       _pressTimeout := _pressTimeout s;
                       _state := IDLE |}) ;;
  _clearExistingTimeout.

Definition is_triggered (s : States) : bool :=
  match s with TRIGGERED => true | _ => false end.

Definition triggerPowerButton (mid : string) : M world unit :=
  try_catch
    (do w <- get;
     if is_triggered (_state (svc w)) then ret tt
     else
       _incrementPressCount ;;
       _clearExistingTimeout ;;
       do w <- get;
       if _shouldTriggerEmergency (svc w) then _triggerEmergency mid
       else if _isValidPressCount (svc w) then _startTimeout
       else ret tt)
    (fun _ => ret tt).

Definition getCurrentState (w : world) : States := _state (svc w).
Definition getPressCount (w : world) : nat := _pressCount (svc w).
Definition reset : M world unit := _resetToIdle.

Definition run_callback (c : callback) (w : world) : world :=
  match c with ResetToIdle => exec _resetToIdle w end.

(** [d] milliseconds pass without a press. *)
Definition advance (d : Z) (w : world) : world :=
  Timers.advance timers set_timers clock set_clock run_callback d w.

(** A press as a plain state transformer. *)
Definition press (mid : string) (w : world) : world :=
  exec (triggerPowerButton mid) w.

End PowerButtonService.

(** ** EmergencyConnect core (CONSTANTS, state, SOSService,
       MisFirePreventionService, ButtonEventHandler) *)

Module EmergencyConnect.

Module CONSTANTS.
Definition VOLUME_UP : string := "volumeUp".
Definition VOLUME_DOWN : string := "volumeDown".
Definition POWER : string := "power".
Definition TRIPLE_PRESS : string := "triplePress".
Definition LONG_PRESS : string := "longPress".
Definition QUINTUPLET_PRESS : string := "quintupletPress".
Definition COUNTDOWN_DURATION : Z := 3000.
Definition MAX_BUTTON_INTERVAL : Z := 5000.
End CONSTANTS.

Inductive ERROR_MESSAGES :=
| INVALID_BUTTON_CONFIG
| INVALID_PHONE_FORMAT
| NO_EMERGENCY_CONTACTS
| NETWORK_DISCONNECTED.

Record buttonConfig : Type := { button : string; action : string }.

Record sosState : Type := {
  initiated : bool;
  sent : bool;
  timestamp : option Z;
  emergencyOverride : bool;
  crashResistant : bool
}.

Record uiState : Type := {
  showCancelButton : bool;
  cancelButtonVisible : bool
}.

Record buttonPress : Type := { press_button : string; press_timestamp : Z }.

(** The fields of the global [state] that the SOS pipeline reads or
    writes.  [onSOSTriggered] tells whether that callback is registered;
    [countdownTimer] is the handle stored by [initiateSOS]. *)
Record EmergencyState : Type := {
  st_buttonConfig : option buttonConfig;
  emergencyContacts : list jsval;
  appState : string;
  networkStatus : jsval;
  st_sosState : sosState;
  st_uiState : uiState;
  buttonPresses : list buttonPress;
  onSOSTriggered : bool;
  countdownTimer : option nat
}.

Definition createInitialSOSState : sosState :=
  {| initiated := false; sent := false; timestamp := None;
     emergencyOverride := false; crashResistant := false |}.

Definition createInitialUIState : uiState :=
  {| showCancelButton := false; cancelButtonVisible := false |}.

(** [new EmergencyState()] *)
Definition initial_state : EmergencyState :=
  {| st_buttonConfig := None; emergencyContacts := []; appState := "active";
     networkStatus := JBool true;
     st_sosState := createInitialSOSState; st_uiState := createInitialUIState;
     buttonPresses := []; onSOSTriggered := false; countdownTimer := None |}.

(** The callback of the countdown timeout. *)
Inductive callback := Countdown.

(** What an observer of the module sees happen. *)
Inductive event :=
| TriggerCalled
| SOSTriggeredCallback (s : sosState).

Record world : Type := {
  state : EmergencyState;
  timers : Timers.table callback;
  clock : Z;
  trace : list event
}.

Definition init (now : Z) : world :=
  {| state := initial_state; timers := Timers.empty; clock := now; trace := [] |}.

Definition set_state (f : EmergencyState → EmergencyState) : M world unit :=
  modify (fun w => {| state := f (state w); timers := timers w;
                      clock := clock w; trace := trace w |}).

Definition set_timers (tb : Timers.table callback) (w : world) : world :=
  {| state := state w; timers := tb; clock := clock w; trace := trace w |}.

Definition set_clock (c : Z) (w : world) : world :=
  {| state := state w; timers := timers w; clock := c; trace := trace w |}.

Definition log (e : event) : M world unit :=
  modify (fun w => {| state := state w; timers := timers w;
                      clock := clock w; trace := trace w ++ [e] |}).

Definition set_sos (f : sosState → sosState) : M world unit :=
  set_state (fun s =>
    {| st_buttonConfig := st_buttonConfig s; emergencyContacts := emergencyContacts s;
       appState := appState s; networkStatus := networkStatus s;
       st_sosState := f (st_sosState s); st_uiState := st_uiState s;
       buttonPresses := buttonPresses s; onSOSTriggered := onSOSTriggered s;
       countdownTimer := countdownTimer s |}).

Definition set_ui (u : uiState) : M world unit :=
  set_state (fun s =>
    {| st_buttonConfig := st_buttonConfig s; emergencyContacts := emergencyContacts s;
       appState := appState s; networkStatus := networkStatus s;
       st_sosState := st_sosState s; st_uiState := u;
       buttonPresses := buttonPresses s; onSOSTriggered := onSOSTriggered s;
       countdownTimer := countdownTimer s |}).

Definition set_countdownTimer (h : option nat) : M world unit :=
  set_state (fun s =>
    {| st_buttonConfig := st_buttonConfig s; emergencyContacts := emergencyContacts s;
       appState := appState s; networkStatus := networkStatus s;
       st_sosState := st_sosState s; st_uiState := st_uiState s;
       buttonPresses := buttonPresses s; onSOSTriggered := onSOSTriggered s;
       countdownTimer := h |}).

Definition set_buttonPresses (ps : list buttonPress) : M world unit :=
  set_state (fun s =>
    {| st_buttonConfig := st_buttonConfig s; emergencyContacts := emergencyContacts s;
       appState := appState s; networkStatus := networkStatus s;
       st_sosState := st_sosState s; st_uiState := st_uiState s;
       buttonPresses := ps; onSOSTriggered := onSOSTriggered s;
       countdownTimer := countdownTimer s |}).

Module Validators.

Definition isValidButton (b : jsval) : bool :=
  match b with
  | JStr s => String.eqb s CONSTANTS.VOLUME_UP || String.eqb s CONSTANTS.VOLUME_DOWN
              || String.eqb s CONSTANTS.POWER
  | _ => false
  end.

Definition isValidAction (a : jsval) : bool :=
  match a with
  | JStr s => String.eqb s CONSTANTS.TRIPLE_PRESS || String.eqb s CONSTANTS.LONG_PRESS
              || String.eqb s CONSTANTS.QUINTUPLET_PRESS
  | _ => false
  end.

(** [/^[0-9-]+$/.test(phone) && phone.length >= 10] on a string. *)
Definition isValidPhoneNumber (phone : jsval) : bool :=
  match phone with
  | JStr s =>
      truthy phone &&
      str_forall (fun c => is_digit c || Ascii.eqb c "-") s &&
      (10 <=? String.length s)%nat
  | _ => false
  end.

Definition is_object (v : jsval) : bool :=
  match typeof v with TObject => true | _ => false end.

Definition prop (v : jsval) (k : string) : jsval :=
  default JUndefined (get_prop v k).

Definition isValidButtonConfig (config : jsval) : bool :=
  truthy config && is_object config &&
  isValidButton (prop config "button") && isValidAction (prop config "action").

Definition isValidContact (contact : jsval) : bool :=
  truthy contact && is_object contact &&
  truthy (prop contact "id") && truthy (prop contact "name") &&
  isValidPhoneNumber (prop contact "phone").

End Validators.

Module Utils.

(** The differences of consecutive timestamps. *)
Fixpoint calculateIntervals (timestamps : list Z) : list Z :=
  match timestamps with
  | a :: ((b :: _) as rest) => (b - a) :: calculateIntervals rest
  | _ => []
  end.

Definition hasIrregularInterval (intervals : list Z) : bool :=
  existsb (fun interval => (CONSTANTS.MAX_BUTTON_INTERVAL <=? interval)%Z) intervals.

End Utils.

Module SOSButtonManager.

Definition setButtonConfig (config : jsval) : M world bool :=
  if negb (Validators.isValidButtonConfig config) then throw InvalidButtonConfigError
  else
    match Validators.prop config "button", Validators.prop config "action" with
    | JStr b, JStr a =>
        set_state (fun s =>
          {| st_buttonConfig := Some {| button := b; action := a |};
             emergencyContacts := emergencyContacts s;
             appState := appState s; networkStatus := networkStatus s;
             st_sosState := st_sosState s; st_uiState := st_uiState s;
             buttonPresses := buttonPresses s; onSOSTriggered := onSOSTriggered s;
             countdownTimer := countdownTimer s |}) ;;
        ret true
    | _, _ => throw TypeError
    end.

Definition getButtonConfig (s : EmergencyState) : option buttonConfig :=
  st_buttonConfig s.

End SOSButtonManager.

Module EmergencyContactManager.

Definition store_contacts (cs : list jsval) : M world unit :=
  set_state (fun s =>
    {| st_buttonConfig := st_buttonConfig s; emergencyContacts := cs;
       appState := appState s; networkStatus := networkStatus s;
       st_sosState := st_sosState s; st_uiState := st_uiState s;
       buttonPresses := buttonPresses s; onSOSTriggered := onSOSTriggered s;
       countdownTimer := countdownTimer s |}).

(** [setContacts] of an array with the elements [contacts]. *)
Definition setContacts (contacts : list jsval) : M world bool :=
  if forallb Validators.isValidContact contacts
  then store_contacts contacts ;; ret true
  else throw InvalidContactError.

Definition addContact (contact : jsval) : M world bool :=
  if Validators.isValidContact contact
  then (do w <- get; store_contacts (emergencyContacts (state w) ++ [contact])) ;;
       ret true
  else throw InvalidContactError.

Definition hasContacts (s : EmergencyState) : bool :=
  (0 <? length (emergencyContacts s))%nat.

Definition getContacts (s : EmergencyState) : list jsval := emergencyContacts s.

Definition clearAll : M world unit := store_contacts [].

(** [validate()]: [isValid] is whether a contact is registered. *)
Definition validate (s : EmergencyState) : bool :=
  negb (length (emergencyContacts s) =? 0)%nat.

End EmergencyContactManager.

Module SystemStateManager.

Definition setNetworkStatus (status : jsval) : M world unit :=
  set_state (fun s =>
    {| st_buttonConfig := st_buttonConfig s; emergencyContacts := emergencyContacts s;
       appState := appState s; networkStatus := status;
       st_sosState := st_sosState s; st_uiState := st_uiState s;
       buttonPresses := buttonPresses s; onSOSTriggered := onSOSTriggered s;
       countdownTimer := countdownTimer s |}).

(** Registering or removing the [onSOSTriggered] callback. *)
Definition setCallback_onSOSTriggered (registered : bool) : M world unit :=
  set_state (fun s =>
    {| st_buttonConfig := st_buttonConfig s; emergencyContacts := emergencyContacts s;
       appState := appState s; networkStatus := networkStatus s;
       st_sosState := st_sosState s; st_uiState := st_uiState s;
       buttonPresses := buttonPresses s; onSOSTriggered := registered;
       countdownTimer := countdownTimer s |}).

Definition getSOSState (w : world) : sosState := st_sosState (state w).
Definition getUIState (w : world) : uiState := st_uiState (state w).

End SystemStateManager.

Module SOSService.

Inductive result :=
| Failure (error : ERROR_MESSAGES)
| Success (notifiedContacts : list jsval) (backgroundExecution : bool).

(** The body of the [async] function has no [await]: it runs at the
    call.  The call itself is recorded in the trace. *)
Definition trigger : M world result :=
  log TriggerCalled ;;
  do w <- get;
  if negb (EmergencyContactManager.hasContacts (state w))
  then ret (Failure NO_EMERGENCY_CONTACTS)
  else if negb (truthy (networkStatus (state w)))
  then ret (Failure NETWORK_DISCONNECTED)
  else
    set_sos (fun s => {| initiated := initiated s; sent := true;
                         timestamp := Some (clock w);
                         emergencyOverride := emergencyOverride s;
                         crashResistant := crashResistant s |}) ;;
    do w <- get;
    (if onSOSTriggered (state w)
     then log (SOSTriggeredCallback (st_sosState (state w))) else ret tt) ;;
    ret (Success (emergencyContacts (state w))
                 (String.eqb (appState (state w)) "background")).

End SOSService.

Module MisFirePreventionService.

Record initiateResult : Type := { countdownStarted : bool; countdownDuration : Z }.

Definition initiateSOS : M world initiateResult :=
  set_sos (fun s => {| initiated := true; sent := sent s; timestamp := timestamp s;
                       emergencyOverride := emergencyOverride s;
                       crashResistant := crashResistant s |}) ;;
  set_ui {| showCancelButton := true; cancelButtonVisible := true |} ;;
  do w <- get;
  let '(handle, tb) :=
    Timers.setTimeout (clock w) CONSTANTS.COUNTDOWN_DURATION Countdown (timers w) in
  modify (set_timers tb) ;;
  set_countdownTimer (Some handle) ;;
  ret {| countdownStarted := true;
         countdownDuration := CONSTANTS.COUNTDOWN_DURATION / 1000 |}.

(** The function passed to [setTimeout] by [initiateSOS]. *)
Definition countdown_callback : M world unit :=
  do w <- get;
  if initiated (st_sosState (state w))
  then SOSService.trigger ;; ret tt
  else ret tt.

(** Returns [{success: true, sosCancelled: true}]. *)
Definition cancel : M world bool :=
  do w <- get;
  match countdownTimer (state w) with
  | Some h =>
      modify (set_timers (Timers.clearTimeout h (timers w))) ;;
      set_countdownTimer None
  | None => ret tt
  end ;;
  set_sos (fun s => {| initiated := false; sent := sent s; timestamp := timestamp s;
                       emergencyOverride := emergencyOverride s;
                       crashResistant := crashResistant s |}) ;;
  set_ui {| showCancelButton := false; cancelButtonVisible := false |} ;;
  ret true.

Inductive reason :=
| NoButtonConfig
| NoButtonPress
| DifferentButton
| IrregularPattern.

Record validationResult : Type := {
  isValidSOS : bool;
  isFalsePositive : option bool;
  why : option reason
}.

Definition validatePressIntervals (s : EmergencyState) : validationResult :=
  if (length (buttonPresses s) <? 2)%nat
  then {| isValidSOS := true; isFalsePositive := Some false; why := None |}
  else
    let timestamps := map press_timestamp (buttonPresses s) in
    let intervals := Utils.calculateIntervals timestamps in
    if Utils.hasIrregularInterval intervals
    then {| isValidSOS := false; isFalsePositive := Some true;
            why := Some IrregularPattern |}
    else {| isValidSOS := true; isFalsePositive := Some false; why := None |}.

Definition validateButtonSequence (s : EmergencyState) : validationResult :=
  match st_buttonConfig s with
  | None => {| isValidSOS := false; isFalsePositive := None;
               why := Some NoButtonConfig |}
  | Some config =>
      match last (buttonPresses s) with
      | None => {| isValidSOS := false; isFalsePositive := None;
                   why := Some NoButtonPress |}
      | Some lastPress =>
          if negb (String.eqb (press_button lastPress) (button config))
          then {| isValidSOS := false; isFalsePositive := None;
                  why := Some DifferentButton |}
          else validatePressIntervals s
      end
  end.

End MisFirePreventionService.

Module ButtonEventHandler.

(** [timestamp = Date.now()] is the clock of the world. *)
Definition handleVolumeButtonPress (button : string) : M world unit :=
  do w <- get;
  let timestamp := clock w in
  set_buttonPresses
    (buttonPresses (state w) ++ [{| press_button := button;
                                    press_timestamp := timestamp |}]) ;;
  let cutoffTime := timestamp - 10000 in
  do w <- get;
  set_buttonPresses
    (List.filter (fun press => (cutoffTime <? press_timestamp press)%Z)
                 (buttonPresses (state w))) ;;
  do w <- get;
  let validation := MisFirePreventionService.validateButtonSequence (state w) in
  if MisFirePreventionService.isValidSOS validation
  then MisFirePreventionService.initiateSOS ;; ret tt
  else ret tt.

End ButtonEventHandler.

Definition run_callback (c : callback) (w : world) : world :=
  match c with Countdown => exec MisFirePreventionService.countdown_callback w end.

(** [d] milliseconds pass with no call into the module. *)
Definition advance (d : Z) (w : world) : world :=
  Timers.advance timers set_timers clock set_clock run_callback d w.

(** The public calls as plain state transformers. *)
Definition initiateSOS (w : world) : world := exec MisFirePreventionService.initiateSOS w.
Definition cancelSOS (w : world) : world := exec MisFirePreventionService.cancel w.
Definition triggerSOS (w : world) : world := exec SOSService.trigger w.
Definition handleVolumeButtonPress (b : string) (w : world) : world :=
  exec (ButtonEventHandler.handleVolumeButtonPress b) w.

(** The number of calls of [SOSService.trigger] seen so far. *)
Definition is_trigger (e : event) : bool :=
  match e with TriggerCalled => true | _ => false end.
Definition count_triggers (tr : list event) : nat :=
  length (List.filter is_trigger tr).
Definition trigger_calls (w : world) : nat := count_triggers (trace w).

End EmergencyConnect.

(** * Vocabulary of the properties and sample inputs *)

Module CS := ContactService.
Module LS := TestableLocationService.
Module ES := EmergencyService.
Module PB := PowerButtonService.
Module EC := EmergencyConnect.

(** A computation leaves the observation [f] of the state as it was. *)
Definition preserves {S B : Type} (f : S → B) {A : Type} (m : M S A) : Prop :=
  ∀ s, f (snd (m s)) = f s.

(** A contact written with hyphens, as the application's tests write it. *)
Definition hyphenated_contact : jsval :=
  JObj [("name", JStr "A"); ("phone", JStr "090-1234-5678")].

(** An entry whose phone is a string that is no phone number. *)
Definition malformed_contact : jsval :=
  JObj [("name", JStr "x"); ("phone", JStr "abc")].

(** The contact list of the application's partial-failure test. *)
Definition partial_failure_contacts : jsval :=
  JArr [JObj [("name", JStr "spouse"); ("phone", JStr "090-1234-5678")];
        JObj [("name", JStr "father"); ("phone", JStr "090-INVALID-NUMBER")];
        JObj [("name", JStr "mother"); ("phone", JStr "090-3456-7890")]].

(** The registry after [setEmergencyContacts] of that list. *)
Definition partial_failure_registry : CS.t :=
  exec (CS.setEmergencyContacts 0 partial_failure_contacts) CS.new.

(** Clock readings and message id of a notification. *)
Definition sample_env : ES.env :=
  {| ES.t_call := 100; ES.t_sent := 110; ES.fresh_messageId := "msg_100_k3x9" |}.

(** What [_buildNotificationData] hands to the fan-out for that registry. *)
Definition partial_failure_data : ES.notificationData :=
  {| ES.nd_id := 1; ES.nd_timestamp := 100; ES.nd_location := None;
     ES.nd_message := ES._createEmergencyMessage sample_env None 100;
     ES.nd_contacts := CS.getEmergencyContacts partial_failure_registry |}.

(** The stored slots hold locations within the coordinate bounds. *)
Definition stored_valid (s : LS.t) : Prop :=
  (∀ l, LS._currentLocation s = Some l → LS._isValidLocationData (JObj l) = true) ∧
  (∀ l, LS._lastKnownLocation s = Some l → LS._isValidLocationData (JObj l) = true).

(** The current location is usable: present, not flagged unavailable,
    within bounds. *)
Definition current_usable (s : LS.t) (c : LS.location) : Prop :=
  LS._currentLocation s = Some c ∧ LS._isLocationUnavailable s = false ∧
  LS._isValidLocationData (JObj c) = true.

(** A fix within the bounds. *)
Definition tokyo : LS.location :=
  [("latitude", JNum 35.5%float); ("longitude", JNum 139.75%float)].

(** A location whose latitude is outside [-90, 90]. *)
Definition out_of_bounds : jsval :=
  JObj [("latitude", JNum 100%float); ("longitude", JNum 0%float)].

(** The cache after [setCurrentLocation] of that fix. *)
Definition cache_with_fix : LS.t := exec (LS.setCurrentLocation (JObj tokyo)) LS.new.

(** The timer table once the pending timeout of the service, if any, is
    cleared. *)
Definition cleared (w : PB.world) : Timers.table PB.callback :=
  match PB._pressTimeout (PB.svc w) with
  | Some h => Timers.clearTimeout h (PB.timers w)
  | None => PB.timers w
  end.

(** The clock readings and message id of a dispatch made at a press. *)
Definition press_env (mid : string) (w : PB.world) : ES.env :=
  {| ES.t_call := PB.clock w; ES.t_sent := PB.clock w + 10;
     ES.fresh_messageId := mid |}.


Section CoreVocabulary.

Import EC.

(** The state after [initiateSOS]: flagged initiated, cancel button
    shown, newest handle stored. *)
Definition initiated_state (s : EmergencyState) (h : nat) : EmergencyState :=
  {| st_buttonConfig := st_buttonConfig s; emergencyContacts := emergencyContacts s;
     appState := appState s; networkStatus := networkStatus s;
     st_sosState := {| initiated := true; sent := sent (st_sosState s);
                       timestamp := timestamp (st_sosState s);
                       emergencyOverride := emergencyOverride (st_sosState s);
                       crashResistant := crashResistant (st_sosState s) |};
     st_uiState := {| showCancelButton := true; cancelButtonVisible := true |};
     buttonPresses := buttonPresses s; onSOSTriggered := onSOSTriggered s;
     countdownTimer := Some h |}.

(** The state after [cancel]. *)
Definition cancelled_state (s : EmergencyState) : EmergencyState :=
  {| st_buttonConfig := st_buttonConfig s; emergencyContacts := emergencyContacts s;
     appState := appState s; networkStatus := networkStatus s;
     st_sosState := {| initiated := false; sent := sent (st_sosState s);
                       timestamp := timestamp (st_sosState s);
                       emergencyOverride := emergencyOverride (st_sosState s);
                       crashResistant := crashResistant (st_sosState s) |};
     st_uiState := {| showCancelButton := false; cancelButtonVisible := false |};
     buttonPresses := buttonPresses s; onSOSTriggered := onSOSTriggered s;
     countdownTimer := None |}.

(** The timeout armed by [initiateSOS] at time [now] under handle [h]. *)
Definition countdown_timer (h : nat) (now : Z) : Timers.timer callback :=
  {| Timers.id := h; Timers.due := now + CONSTANTS.COUNTDOWN_DURATION;
     Timers.action := Countdown |}.

(** The state after a successful hand-off in [SOSService.trigger]. *)
Definition sent_state (s : EmergencyState) (now : Z) : EmergencyState :=
  {| st_buttonConfig := st_buttonConfig s; emergencyContacts := emergencyContacts s;
     appState := appState s; networkStatus := networkStatus s;
     st_sosState := {| initiated := initiated (st_sosState s); sent := true;
                       timestamp := Some now;
                       emergencyOverride := emergencyOverride (st_sosState s);
                       crashResistant := crashResistant (st_sosState s) |};
     st_uiState := st_uiState s;
     buttonPresses := buttonPresses s; onSOSTriggered := onSOSTriggered s;
     countdownTimer := countdownTimer s |}.

(** The three ways validation is inconclusive: no configuration, no press
    recorded, or a last press on another button than the configured one. *)
Definition inconclusive (s : EmergencyState) : Prop :=
  st_buttonConfig s = None ∨
  buttonPresses s = [] ∨
  ∃ cfg p, st_buttonConfig s = Some cfg ∧ last (buttonPresses s) = Some p ∧
           press_button p ≠ button cfg.

(** Some two consecutive presses are [MAX_BUTTON_INTERVAL] or more apart. *)
Definition irregular (s : EmergencyState) : Prop :=
  ∃ (i : nat) (p q : buttonPress),
    buttonPresses s !! i = Some p ∧ buttonPresses s !! S i = Some q ∧
    (CONSTANTS.MAX_BUTTON_INTERVAL <= press_timestamp q - press_timestamp p)%Z.

(** The world once a press of [b] is appended and the presses older than
    ten seconds are pruned. *)
Definition recorded (b : string) (w : world) : world :=
  {| state :=
       {| st_buttonConfig := st_buttonConfig (state w);
          emergencyContacts := emergencyContacts (state w);
          appState := appState (state w); networkStatus := networkStatus (state w);
          st_sosState := st_sosState (state w); st_uiState := st_uiState (state w);
          buttonPresses :=
            List.filter (fun p => (clock w - 10000 <? press_timestamp p)%Z)
              (buttonPresses (state w) ++
               [{| press_button := b; press_timestamp := clock w |}]);
          onSOSTriggered := onSOSTriggered (state w);
          countdownTimer := countdownTimer (state w) |};
     timers := timers w; clock := clock w; trace := trace w |}.

End CoreVocabulary.

(** A contact the core accepts. *)
Definition core_contact : jsval :=
  JObj [("id", JStr "1"); ("name", JStr "A"); ("phone", JStr "090-1234-5678")].

(** The fresh core, at time 0, with that contact added. *)
Definition world_with_contact : EC.world :=
  exec (EC.EmergencyContactManager.addContact core_contact) (EC.init 0).

(** The world in which the SOS was sent after a full countdown. *)
Definition world_sent : EC.world :=
  EC.advance 3000 (EC.initiateSOS world_with_contact).

(** The core with one contact and the configuration
    [{button: volumeUp, action: triplePress}]. *)
Definition world_configured : EC.world :=
  exec (EC.SOSButtonManager.setButtonConfig
          (JObj [("button", JStr "volumeUp"); ("action", JStr "triplePress")]))
       world_with_contact.

(** ** Vocabulary of the further properties *)

(** The contact [_normalizeContact] builds from the properties [ps] of an
    object whose phone is the string [p]. *)
Definition normalized_contact (now : Z) (ps : list (string * jsval)) (p : string)
  : CS.contact :=
  {| CS.name := or_else (assoc "name" ps) (JStr CS.NAME_UNSET);
     CS.phone := CS._normalizePhoneNumber p;
     CS.addedAt := now;
     CS.priority := or_else (assoc "priority" ps) (JStr "normal") |}.

(** The registry with one more contact stored under its phone. *)
Definition with_contact (nc : CS.contact) (s : CS.t) : CS.t :=
  {| CS._contactsByPhone := <[CS.phone nc := nc]> (CS._contactsByPhone s);
     CS._contactOrder := (CS._contactOrder s ++ [nc])%list |}.

(** The map and the list of the registry tell the same story: a stored
    value sits under its own phone and is listed, and every listed contact
    has its phone in the map. *)
Definition registry_consistent (s : CS.t) : Prop :=
  (∀ p c, CS._contactsByPhone s !! p = Some c → CS.phone c = p ∧ In c (CS._contactOrder s)) ∧
  (∀ c, In c (CS._contactOrder s) → is_Some (CS._contactsByPhone s !! CS.phone c)).

(** The characters [_normalizePhoneNumber] keeps. *)
Definition kept (c : ascii) : bool :=
  negb (Ascii.eqb c "-" || is_space c || Ascii.eqb c "(" || Ascii.eqb c ")").

(** The characters a valid normalized phone is made of. *)
Definition digit_or_plus (c : ascii) : bool := is_digit c || Ascii.eqb c "+".

(** One per-contact attempt of the fan-out, as it leaves the service: a
    failed send is counted, a successful one is recorded under the phone
    and counted. *)
Definition attempt (e : ES.env) (msg : ES.message) (s : ES.t) (c : CS.contact) : ES.t :=
  if ES._isInvalidPhoneNumber (CS.phone c) then
    {| ES._locationService := ES._locationService s;
       ES._contactService := ES._contactService s;
       ES._notificationHistory := ES._notificationHistory s;
       ES._sentMessages := ES._sentMessages s;
       ES._lastNotificationId := ES._lastNotificationId s;
       ES._statistics :=
         {| ES.totalNotifications := ES.totalNotifications (ES._statistics s);
            ES.successfulSends := ES.successfulSends (ES._statistics s);
            ES.failedSends := S (ES.failedSends (ES._statistics s));
            ES.lastNotificationTime := ES.lastNotificationTime (ES._statistics s) |} |}
  else
    {| ES._locationService := ES._locationService s;
       ES._contactService := ES._contactService s;
       ES._notificationHistory := ES._notificationHistory s;
       ES._sentMessages :=
         <[CS.phone c := {| ES.sent_message := msg; ES.sentAt := ES.t_sent e;
                            ES.status := ES.SUCCESS |}]> (ES._sentMessages s);
       ES._lastNotificationId := ES._lastNotificationId s;
       ES._statistics :=
         {| ES.totalNotifications := ES.totalNotifications (ES._statistics s);
            ES.successfulSends := S (ES.successfulSends (ES._statistics s));
            ES.failedSends := ES.failedSends (ES._statistics s);
            ES.lastNotificationTime := ES.lastNotificationTime (ES._statistics s) |} |}.

(** The value a per-contact promise is fulfilled with. *)
Definition attempt_value (e : ES.env) (c : CS.contact) : ES.sendValue :=
  if ES._isInvalidPhoneNumber (CS.phone c) then
    {| ES.sv_phone := CS.phone c; ES.sv_result := ES.FAILED; ES.sv_sentAt := None;
       ES.sv_error := Some (InvalidPhoneNumber (CS.phone c)) |}
  else
    {| ES.sv_phone := CS.phone c; ES.sv_result := ES.SUCCESS;
       ES.sv_sentAt := Some (ES.t_sent e); ES.sv_error := None |}.

(** The phones of a contact list that pass the check of the send. *)
Definition sendable (cs : list CS.contact) : list CS.contact :=
  List.filter (fun c => negb (ES._isInvalidPhoneNumber (CS.phone c))) cs.

(** The service once a notification id is drawn and the notification is
    recorded as failed with [err]. *)
Definition rejected_state (e : ES.env) (s : ES.t) (err : exn) : ES.t :=
  {| ES._locationService := ES._locationService s;
     ES._contactService := ES._contactService s;
     ES._notificationHistory :=
       (ES._notificationHistory s ++
        [ES.Failed (S (ES._lastNotificationId s)) err (ES.t_call e)])%list;
     ES._sentMessages := ES._sentMessages s;
     ES._lastNotificationId := S (ES._lastNotificationId s);
     ES._statistics := ES._statistics s |}.

(** The listed contacts whose phone fails the format check. *)
Definition invalid_contacts (cs : CS.t) : list CS.contact :=
  List.filter (fun c => negb (CS._isValidPhoneNumber (CS.phone c))) (CS._contactOrder cs).

(** The registry passes [validateEmergencyContacts]. *)
Definition registry_valid (cs : CS.t) : Prop :=
  CS.getContactCount cs ≠ 0%nat ∧
  Forall (fun c => CS._isValidPhoneNumber (CS.phone c) = true) (CS._contactOrder cs).

(** The message a notification made under [e] carries. *)
Definition message_of (e : ES.env) (s : ES.t) : ES.message :=
  ES._createEmergencyMessage e
    (LS.getBestAvailableLocation (ES._locationService s)) (ES.t_call e).

(** The service once a notification id is drawn. *)
Definition drawn (s : ES.t) : ES.t :=
  {| ES._locationService := ES._locationService s;
     ES._contactService := ES._contactService s;
     ES._notificationHistory := ES._notificationHistory s;
     ES._sentMessages := ES._sentMessages s;
     ES._lastNotificationId := S (ES._lastNotificationId s);
     ES._statistics := ES._statistics s |}.

(** The notification data built under [e] once the id is drawn. *)
Definition data_of (e : ES.env) (s : ES.t) : ES.notificationData :=
  {| ES.nd_id := S (ES._lastNotificationId s);
     ES.nd_timestamp := ES.t_call e;
     ES.nd_location := LS.getBestAvailableLocation (ES._locationService s);
     ES.nd_message := message_of e s;
     ES.nd_contacts := CS.getEmergencyContacts (ES._contactService s) |}.

(** The service after a fulfilled notification: every contact attempted,
    the notification recorded and counted. *)
Definition fulfilled_state (e : ES.env) (s : ES.t) : ES.t :=
  let s2 := fold_left (attempt e (message_of e s))
              (CS.getEmergencyContacts (ES._contactService s)) (drawn s) in
  {| ES._locationService := ES._locationService s2;
     ES._contactService := ES._contactService s2;
     ES._notificationHistory :=
       (ES._notificationHistory s2 ++
        [ES.Completed (data_of e s)
           (map (fun c => ES.fulfilled (attempt_value e c))
                (CS.getEmergencyContacts (ES._contactService s)))
           (ES.t_sent e)])%list;
     ES._sentMessages := ES._sentMessages s2;
     ES._lastNotificationId := ES._lastNotificationId s2;
     ES._statistics :=
       {| ES.totalNotifications := S (ES.totalNotifications (ES._statistics s2));
          ES.successfulSends := ES.successfulSends (ES._statistics s2);
          ES.failedSends := ES.failedSends (ES._statistics s2);
          ES.lastNotificationTime := Some (ES.t_sent e) |} |}.

(** What can happen to the power-button service: a press (with the message
    id a dispatch would draw), a wait, a reset. *)
Inductive pb_event : Type :=
| PbPress (mid : string)
| PbWait (d : Z)
| PbReset.

(** One event applied to the service and its timers. *)
Definition pb_step (w : PB.world) (ev : pb_event) : PB.world :=
  match ev with
  | PbPress mid => PB.press mid w
  | PbWait d => PB.advance d w
  | PbReset => exec PB.reset w
  end.

(** A sequence of events, oldest first. *)
Definition pb_run (evs : list pb_event) (w : PB.world) : PB.world :=
  fold_left pb_step evs w.

(** The event is a call of [reset()]. *)
Definition is_reset (ev : pb_event) : bool :=
  match ev with PbReset => true | _ => false end.

(** The shape of the states the service reaches: IDLE with count 0 and no
    timeout, COUNTING with count 1 or 2 and exactly one pending timeout,
    the one whose handle is stored, TRIGGERED with count 3 and no
    timeout. *)
Definition pb_inv (w : PB.world) : Prop :=
  match PB._state (PB.svc w) with
  | PB.IDLE =>
      PB._pressCount (PB.svc w) = 0%nat ∧ PB._pressTimeout (PB.svc w) = None ∧
      Timers.pending (PB.timers w) = []
  | PB.COUNTING =>
      (1 <= PB._pressCount (PB.svc w) <= 2)%nat ∧
      ∃ x, PB._pressTimeout (PB.svc w) = Some (Timers.id x) ∧
           Timers.pending (PB.timers w) = [x]
  | PB.TRIGGERED =>
      PB._pressCount (PB.svc w) = 3%nat ∧ PB._pressTimeout (PB.svc w) = None ∧
      Timers.pending (PB.timers w) = []
  end.

(** The service at rest, with [nid] the next timer handle. *)
Definition pb_idle_world (es : ES.t) (nid : nat) (c : Z) : PB.world :=
  {| PB.svc := {| PB._pressCount := 0; PB._pressTimeout := None; PB._state := PB.IDLE |};
     PB.emergency := es;
     PB.timers := {| Timers.pending := []; Timers.next_id := nid |};
     PB.clock := c |}.

(** The service counting, [k] presses made, the last one at time [c0]
    under the timer handle [h], the clock now at [c]. *)
Definition pb_counting_world (k : nat) (es : ES.t) (h : nat) (c0 c : Z) : PB.world :=
  {| PB.svc := {| PB._pressCount := k; PB._pressTimeout := Some h;
                  PB._state := PB.COUNTING |};
     PB.emergency := es;
     PB.timers :=
       {| Timers.pending := [{| Timers.id := h; Timers.due := c0 + PB.PRESS_TIMEOUT_MS;
                                Timers.action := PB.ResetToIdle |}];
          Timers.next_id := S h |};
     PB.clock := c |}.

(** Every stored contact of the core passes [Validators.isValidContact]. *)
Definition contacts_valid (w : EC.world) : Prop :=
  forallb EC.Validators.isValidContact (EC.emergencyContacts (EC.state w)) = true.

(** The world with the contact list replaced. *)
Definition with_contacts (cs : list jsval) (w : EC.world) : EC.world :=
  exec (EC.EmergencyContactManager.store_contacts cs) w.

(** The countdown is not running and nothing of it is shown or stored. *)
Definition countdown_idle (w : EC.world) : Prop :=
  EC.initiated (EC.st_sosState (EC.state w)) = false ∧
  EC.st_uiState (EC.state w)
    = {| EC.showCancelButton := false; EC.cancelButtonVisible := false |} ∧
  EC.countdownTimer (EC.state w) = None.

(** The world with the button configuration replaced. *)
Definition with_button_config (b a : string) (w : EC.world) : EC.world :=
  {| EC.state :=
       {| EC.st_buttonConfig := Some {| EC.button := b; EC.action := a |};
          EC.emergencyContacts := EC.emergencyContacts (EC.state w);
          EC.appState := EC.appState (EC.state w);
          EC.networkStatus := EC.networkStatus (EC.state w);
          EC.st_sosState := EC.st_sosState (EC.state w);
          EC.st_uiState := EC.st_uiState (EC.state w);
          EC.buttonPresses := EC.buttonPresses (EC.state w);
          EC.onSOSTriggered := EC.onSOSTriggered (EC.state w);
          EC.countdownTimer := EC.countdownTimer (EC.state w) |};
     EC.timers := EC.timers w; EC.clock := EC.clock w; EC.trace := EC.trace w |}.

(** * Properties *)


(** ** Contact registry *)

Section ContactRegistry.

Lemma setEmergencyContacts_forEach_returns now cs s :
  eval (CS.forEach_add now cs) s = Return tt.
Proof.
  revert s. induction cs as [|c cs IH]; intros s; [reflexivity|].
  unfold eval in *. cbn [CS.forEach_add]. unfold bind at 1, try_catch.
  destruct (CS._addValidatedContact now c s) as [[[]|e] s']; cbn; apply IH.
Qed.

(** [setEmergencyContacts] never throws, whatever it is given. *)
Lemma setEmergencyContacts_returns now v s :
  eval (CS.setEmergencyContacts now v) s = Return tt.
Proof.
  unfold CS.setEmergencyContacts, eval, bind at 1. cbn.
  apply (setEmergencyContacts_forEach_returns now _ CS.new).
Qed.

(** A non-array argument empties the registry. *)
Lemma setEmergencyContacts_non_array now v s :
  (∀ l, v ≠ JArr l) → exec (CS.setEmergencyContacts now v) s = CS.new.
Proof.
  intros Hv. destruct v; try reflexivity. exfalso. by eapply Hv.
Qed.

Lemma forEach_add_all_thrown now l :
  Forall (fun c => ∀ s', ∃ e, CS._addValidatedContact now c s' = (Throw e, s')) l →
  ∀ s0, exec (CS.forEach_add now l) s0 = s0.
Proof.
  unfold exec. induction 1 as [|c l Hc _ IH]; intros s0; [reflexivity|].
  cbn [CS.forEach_add]. unfold bind at 1, try_catch.
  destruct (Hc s0) as [e ->]. cbn. apply IH.
Qed.

(** The entries that are dropped are those on which [_addValidatedContact]
    throws: an array of such entries empties the registry. *)
Lemma setEmergencyContacts_all_thrown now l s :
  Forall (fun c => ∀ s', ∃ e, CS._addValidatedContact now c s' = (Throw e, s')) l →
  exec (CS.setEmergencyContacts now (JArr l)) s = CS.new.
Proof.
  intros Hl. unfold CS.setEmergencyContacts, exec, bind at 1. cbn.
  apply (forEach_add_all_thrown now l Hl CS.new).
Qed.

(** An add whose phone, as written, is a key of the registry changes
    nothing and throws. *)
Lemma addEmergencyContact_known_key now c p s :
  get_prop c "phone" = Some (JStr p) →
  is_Some (CS._contactsByPhone s !! p) →
  ∃ e, CS.addEmergencyContact now c s = (Throw e, s).
Proof.
  intros Hp Hk. unfold CS.addEmergencyContact, bind at 1.
  unfold CS._validateContactFormat. rewrite Hp.
  destruct (negb (truthy c) || _) eqn:E1; [by eexists|].
  destruct (negb (truthy (JStr p))) eqn:E2; [by eexists|].
  destruct (negb (CS._isValidPhoneNumber p)) eqn:E3; [by eexists|].
  cbn. unfold bind at 1, CS._checkContactLimits, bind at 1, get.
  destruct (CS.MAX_CONTACTS <=? CS.getContactCount s)%nat eqn:E4; [by eexists|].
  cbn. unfold bind at 1, CS._checkDuplicatePhone, bind at 1, get.
  rewrite bool_decide_eq_true_2 by done. by eexists.
Qed.

End ContactRegistry.

(** C3 (defect in the code).  The registry should never hold two contacts
    with the same normalized phone, the second add failing with the
    duplicate-phone error.  [_checkDuplicatePhone] looks the phone up as
    written while the keys are normalized: adding "090-1234-5678" twice
    succeeds twice and leaves two contacts with the phone "09012345678". *)
Theorem C3_duplicate_phone_accepted :
  let s1 := exec (CS.addEmergencyContact 0 hyphenated_contact) CS.new in
  let s2 := exec (CS.addEmergencyContact 1 hyphenated_contact) s1 in
  eval (CS.addEmergencyContact 0 hyphenated_contact) CS.new = Return tt ∧
  eval (CS.addEmergencyContact 1 hyphenated_contact) s1 = Return tt ∧
  map CS.phone (CS.getEmergencyContacts s2) = ["09012345678"; "09012345678"] ∧
  CS.getContactCount s2 = 1%nat.
Proof. vm_compute. repeat split; reflexivity. Qed.

(** C10 (defect in the code).  An array whose every entry fails validation
    should leave the registry empty.  [setEmergencyContacts] never calls
    [_validateContactFormat]: the entry with phone "abc", which that
    validation rejects with the invalid-format error, is stored. *)
Theorem C10_malformed_entry_stored :
  let s := exec (CS.setEmergencyContacts 0 (JArr [malformed_contact])) CS.new in
  eval (CS._validateContactFormat malformed_contact) CS.new = Throw JS.INVALID_PHONE_FORMAT ∧
  eval (CS.setEmergencyContacts 0 (JArr [malformed_contact])) CS.new = Return tt ∧
  map CS.phone (CS.getEmergencyContacts s) = ["abc"] ∧
  CS.hasEmergencyContacts s = true.
Proof. vm_compute. repeat split; reflexivity. Qed.

(** ** Notification dispatcher *)

Section Dispatcher.

(** A per-contact promise with its [.catch] handler never rejects. *)
Lemma caught_send_returns e c msg s :
  ∃ v s', ES.promise_catch (ES._sendMessageToContact e (CS.phone c) msg)
            (fun error => {| ES.sv_phone := CS.phone c; ES.sv_result := ES.FAILED;
                             ES.sv_sentAt := None; ES.sv_error := Some error |}) s
          = (Return v, s').
Proof.
  unfold ES.promise_catch, try_catch.
  destruct (ES._sendMessageToContact e (CS.phone c) msg s) as [[v|err] s']; eauto.
Qed.

(** Hence every element [Promise.allSettled] reports is [fulfilled]. *)
Lemma sendToAllContacts_all_fulfilled e nd s :
  ∃ rs, eval (ES._sendToAllContacts e nd) s = Return rs ∧
        length rs = length (ES.nd_contacts nd) ∧
        forallb ES.is_fulfilled rs = true.
Proof.
  unfold ES._sendToAllContacts, eval.
  generalize (ES.nd_message nd) as msg. intros msg.
  revert s. induction (ES.nd_contacts nd) as [|c cs IH]; intros s.
  - exists []. by cbn.
  - cbn [map ES.allSettled]. unfold bind at 1.
    destruct (caught_send_returns e c msg s) as (v & s' & ->).
    unfold bind at 1. destruct (IH s') as (rs & Hrs & Hlen & Hall).
    destruct (ES.allSettled _ s') as [[rs'|err] s''] eqn:E; cbn in Hrs; try discriminate.
    injection Hrs as ->. exists (ES.fulfilled v :: rs). cbn. by rewrite Hlen, Hall.
Qed.

Lemma filter_all {A} (p : A → bool) (l : list A) :
  forallb p l = true → List.filter p l = l ∧ List.filter (fun x => negb (p x)) l = [].
Proof.
  induction l as [|x l IH]; cbn; [done|].
  intros [Hx Hl]%andb_true_iff. rewrite Hx. cbn. destruct (IH Hl) as [-> ->]. done.
Qed.

(** The aggregate built from the fan-out reports every contact as
    successful and none as failed, whatever happened to the sends. *)
Lemma aggregate_counts_all_successful e nd s rs :
  eval (ES._sendToAllContacts e nd) s = Return rs →
  ES.successful (ES._buildSuccessResponse nd rs) = length (ES.nd_contacts nd) ∧
  ES.failed (ES._buildSuccessResponse nd rs) = 0%nat.
Proof.
  intros Hrs. destruct (sendToAllContacts_all_fulfilled e nd s) as (rs' & Hrs' & Hlen & Hall).
  rewrite Hrs in Hrs'. injection Hrs' as <-.
  cbn. destruct (filter_all _ _ Hall) as [-> ->]. done.
Qed.

End Dispatcher.

(** C1 (defect in the code).  Dispatching to [A(valid), B(marked invalid),
    C(valid)] should succeed with total 3, successful 2, failed 1, a sent
    message recorded for A and C and none for B.  With that registry
    [sendEmergencyNotification] rejects in [_validatePrerequisites] and
    sends nothing; and the fan-out with its aggregate, run on the same
    contacts, records A and C and counts 2 successful and 1 failed sends in
    the statistics, but reports successful 3, failed 0: the [.catch] of
    each send turns its rejection into a fulfilment before
    [Promise.allSettled] sees it. *)
Theorem C1_partial_failure_misreported :
  let es := ES.new LS.new partial_failure_registry in
  (eval (ES.sendEmergencyNotification sample_env) es
     = Throw (InvalidContactsIncluded ["090INVALIDNUMBER"]) ∧
   ES._sentMessages (exec (ES.sendEmergencyNotification sample_env) es) = ∅) ∧
  ∃ rs,
    let es' := exec (ES._sendToAllContacts sample_env partial_failure_data) es in
    let r := ES._buildSuccessResponse partial_failure_data rs in
    eval (ES._sendToAllContacts sample_env partial_failure_data) es = Return rs ∧
    (ES.sentTo r, ES.successful r, ES.failed r) = (3, 3, 0)%nat ∧
    (ES.successfulSends (ES._statistics es'), ES.failedSends (ES._statistics es'))
      = (2, 1)%nat ∧
    ES.isMessageSentTo "09012345678" es' = true ∧
    ES.isMessageSentTo "090INVALIDNUMBER" es' = false ∧
    ES.isMessageSentTo "09034567890" es' = true.
Proof.
  split; [split; vm_compute; reflexivity|].
  eexists. cbv zeta. split; [vm_compute; reflexivity|].
  vm_compute. repeat split; reflexivity.
Qed.

(** ** Location cache *)

Arguments TestableLocationService._isValidLocationData : simpl never.

Section LocationCache.

(** Only a plain object has numeric [latitude] and [longitude]. *)
Lemma valid_is_object l :
  LS._isValidLocationData l = true → ∃ ps, l = JObj ps.
Proof.
  unfold LS._isValidLocationData.
  destruct l; cbn [get_prop]; try (rewrite andb_false_r; discriminate); eauto.
Qed.

Lemma valid_spread l :
  LS._isValidLocationData l = true → JObj (LS.spread l) = l.
Proof. intros [ps ->]%valid_is_object. reflexivity. Qed.

Lemma setCurrentLocation_cases l s :
  LS.setCurrentLocation l s =
    (Return tt,
     if negb (truthy l) then
       {| LS._currentLocation := None;
          LS._lastKnownLocation := LS._lastKnownLocation s;
          LS._isLocationUnavailable := LS._isLocationUnavailable s |}
     else if LS._isValidLocationData l then
       {| LS._currentLocation := Some (LS.spread l);
          LS._lastKnownLocation := Some (LS.spread l);
          LS._isLocationUnavailable := LS._isLocationUnavailable s |}
     else
       {| LS._currentLocation := None;
          LS._lastKnownLocation := LS._lastKnownLocation s;
          LS._isLocationUnavailable := LS._isLocationUnavailable s |}).
Proof.
  unfold LS.setCurrentLocation, try_catch, bind at 1, LS._validateLocation.
  destruct (truthy l); cbn; [|reflexivity].
  destruct (LS._isValidLocationData l); reflexivity.
Qed.

Lemma setLastKnownLocation_cases l s :
  LS.setLastKnownLocation l s =
    (Return tt,
     {| LS._currentLocation := LS._currentLocation s;
        LS._lastKnownLocation :=
          if truthy l && LS._isValidLocationData l then Some (LS.spread l) else None;
        LS._isLocationUnavailable := LS._isLocationUnavailable s |}).
Proof.
  unfold LS.setLastKnownLocation, try_catch, bind at 1, LS._validateLocation.
  destruct (truthy l); cbn; [|reflexivity].
  destruct (LS._isValidLocationData l); reflexivity.
Qed.

End LocationCache.

(** C6.  [getBestAvailableLocation] returns the current location when it
    is present, not flagged unavailable and within bounds; otherwise the
    last-known location when it is present and within bounds, unchanged;
    otherwise nothing. *)
Theorem C6_best_available_fallback (s : LS.t) :
  (∀ c, current_usable s c → LS.getBestAvailableLocation s = Some c) ∧
  ((¬ ∃ c, current_usable s c) →
   ∀ l, LS._lastKnownLocation s = Some l →
        LS._isValidLocationData (JObj l) = true →
        LS.getBestAvailableLocation s = Some l) ∧
  ((¬ ∃ c, current_usable s c) →
   (∀ l, LS._lastKnownLocation s = Some l →
         LS._isValidLocationData (JObj l) = false) →
   LS.getBestAvailableLocation s = None).
Proof.
  unfold current_usable, LS.getBestAvailableLocation, LS.getCurrentLocation,
    LS.getLastKnownLocation, LS.valid_or_null.
  destruct s as [cur lk un]; cbn. split; [|split].
  - intros c (-> & -> & ->). reflexivity.
  - intros Hno l -> Hl. rewrite Hl.
    destruct un; [reflexivity|]. destruct cur as [c|]; [|reflexivity].
    destruct (LS._isValidLocationData (JObj c)) eqn:Hc; [|reflexivity].
    exfalso. apply Hno. by exists c.
  - intros Hno Hlk.
    assert (match lk with
            | Some l => if LS._isValidLocationData (JObj l) then Some l else None
            | None => None end = None) as ->.
    { destruct lk as [l|]; [|reflexivity]. by rewrite (Hlk l eq_refl). }
    destruct un; [reflexivity|]. destruct cur as [c|]; [|reflexivity].
    destruct (LS._isValidLocationData (JObj c)) eqn:Hc; [|reflexivity].
    exfalso. apply Hno. by exists c.
Qed.

(** With the current fix flagged unavailable, the last-known one is
    returned as it was stored. *)
Lemma C6_best_available_fallback_witness :
  let s := exec (LS.setLocationUnavailable (JBool true)) cache_with_fix in
  LS.getBestAvailableLocation s = Some tokyo.
Proof.
  intros s. destruct (C6_best_available_fallback s) as (_ & H & _).
  apply H.
  - intros (c & _ & Hun & _). vm_compute in Hun. discriminate.
  - reflexivity.
  - vm_compute. reflexivity.
Defined.

(** C9, as the code has it.  An input that fails the bounds check makes
    neither setter throw and is never stored; the slot being set is
    cleared to [null] and the other slot is left as it was.  Every setter
    keeps all stored locations within the coordinate bounds. *)
Theorem C9_invalid_location_clears_slot (s : LS.t) (l : jsval) :
  (LS._isValidLocationData l = false →
   LS.setCurrentLocation l s =
     (Return tt, {| LS._currentLocation := None;
                    LS._lastKnownLocation := LS._lastKnownLocation s;
                    LS._isLocationUnavailable := LS._isLocationUnavailable s |}) ∧
   LS.setLastKnownLocation l s =
     (Return tt, {| LS._currentLocation := LS._currentLocation s;
                    LS._lastKnownLocation := None;
                    LS._isLocationUnavailable := LS._isLocationUnavailable s |})) ∧
  (stored_valid s →
   stored_valid (exec (LS.setCurrentLocation l) s) ∧
   stored_valid (exec (LS.setLastKnownLocation l) s)).
Proof.
  split.
  - intros Hl. rewrite setCurrentLocation_cases, setLastKnownLocation_cases, Hl.
    rewrite andb_false_r. by destruct (negb (truthy l)).
  - intros [Hc Hk]. unfold exec.
    rewrite setCurrentLocation_cases, setLastKnownLocation_cases. cbn.
    destruct (LS._isValidLocationData l) eqn:Hl.
    + pose proof (valid_spread l Hl) as Hs.
      split; split; cbn; destruct (truthy l); cbn; try done;
        try (intros ? [= <-]; by rewrite Hs); auto.
    + rewrite andb_false_r. split; split; cbn; destruct (truthy l); cbn; try done; auto.
Qed.

Lemma C9_invalid_location_clears_slot_witness :
  LS._currentLocation (exec (LS.setCurrentLocation out_of_bounds) cache_with_fix) = None ∧
  LS._lastKnownLocation (exec (LS.setCurrentLocation out_of_bounds) cache_with_fix)
    = Some tokyo ∧
  stored_valid (exec (LS.setCurrentLocation out_of_bounds) cache_with_fix).
Proof.
  destruct (C9_invalid_location_clears_slot cache_with_fix out_of_bounds) as [H1 H2].
  destruct (H1 ltac:(vm_compute; reflexivity)) as [E _].
  unfold exec. rewrite E. cbn. split; [reflexivity|]. split; [reflexivity|].
  assert (stored_valid cache_with_fix) as Hv.
  { split; intros l0 [= <-]; vm_compute; reflexivity. }
  destruct (H2 Hv) as [Hs _]. unfold exec in Hs. rewrite E in Hs. exact Hs.
Defined.

(** C9, as stated, fails: the call with an out-of-bounds input does change
    what the cache stored before, the current fix is gone. *)
Lemma C9_counterexample :
  LS._isValidLocationData out_of_bounds = false ∧
  LS._currentLocation cache_with_fix = Some tokyo ∧
  eval (LS.setCurrentLocation out_of_bounds) cache_with_fix = Return tt ∧
  LS._currentLocation (exec (LS.setCurrentLocation out_of_bounds) cache_with_fix) = None.
Proof. vm_compute. repeat split; reflexivity. Qed.

(** ** Timers and the event loop *)

Section TimerFacts.
Context {A : Type}.






End TimerFacts.

(** ** Monadic frame reasoning: what a computation leaves untouched *)

Section Preserves.
Context {S B : Type} (f : S → B).

Lemma preserves_ret {A} (a : A) : preserves f (ret a).
Proof. by intros s. Qed.

Lemma preserves_throw {A} e : preserves f (@throw S A e).
Proof. by intros s. Qed.

Lemma preserves_get : preserves f get.
Proof. by intros s. Qed.

Lemma preserves_modify g : (∀ s, f (g s) = f s) → preserves f (modify g).
Proof. intros H s. apply H. Qed.

Lemma preserves_bind {A C} (m : M S A) (k : A → M S C) :
  preserves f m → (∀ a, preserves f (k a)) → preserves f (bind m k).
Proof.
  intros Hm Hk s. unfold bind. specialize (Hm s).
  destruct (m s) as [[a|e] s']; cbn in *; [|done]. by rewrite Hk.
Qed.

Lemma preserves_try_catch {A} (m : M S A) h :
  preserves f m → (∀ e, preserves f (h e)) → preserves f (try_catch m h).
Proof.
  intros Hm Hh s. unfold try_catch. specialize (Hm s).
  destruct (m s) as [[a|e] s']; cbn in *; [done|]. by rewrite Hh.
Qed.

Lemma preserves_if {A} (b : bool) (m1 m2 : M S A) :
  preserves f m1 → preserves f m2 → preserves f (if b then m1 else m2).
Proof. by destruct b. Qed.

Lemma preserves_allSettled {A} (ps : list (M S A)) :
  Forall (preserves f) ps → preserves f (ES.allSettled ps).
Proof.
  induction 1 as [|p ps Hp _ IH]; [apply preserves_ret|].
  cbn [ES.allSettled]. apply preserves_bind.
  - intros s. specialize (Hp s). by destruct (p s) as [[a|e] s'].
  - intros r. apply preserves_bind; [done|]. intros rs. apply preserves_ret.
Qed.

End Preserves.


(** One step of a frame proof: split the computation, or close a leaf. *)
Ltac frame_step :=
  first [ apply preserves_try_catch | apply preserves_bind | intros ?
        | apply preserves_if | apply preserves_ret | apply preserves_throw
        | apply preserves_get
        | apply preserves_modify; intros ?; reflexivity ].

Section DispatchFrame.

Lemma on_contacts_keeps_id {A} (m : M CS.t A) :
  preserves ES._lastNotificationId (ES.on_contacts m).
Proof.
  intros s. unfold ES.on_contacts. by destruct (m (ES._contactService s)) as [r cs].
Qed.

Lemma send_keeps_id e phone msg :
  preserves ES._lastNotificationId (ES._sendMessageToContact e phone msg).
Proof.
  unfold ES._sendMessageToContact, ES._simulateMessageSending, ES.with_stats.
  repeat frame_step.
Qed.

(** Once the id is drawn, nothing in a notification changes the counter. *)
Lemma sendEmergencyNotification_draws_one_id e s :
  ES._lastNotificationId (exec (ES.sendEmergencyNotification e) s)
  = Datatypes.S (ES._lastNotificationId s).
Proof.
  unfold exec, ES.sendEmergencyNotification, bind at 1, ES._generateNotificationId.
  cbn.
  match goal with
  | |- ES._lastNotificationId (snd (?m ?s1)) = _ =>
      assert (preserves ES._lastNotificationId m) as Hm
  end.
  { unfold ES._validatePrerequisites, ES._buildNotificationData, ES._sendToAllContacts,
      ES._recordNotificationResult, ES._recordFailedNotification,
      ES.push_history, ES.with_stats, ES.promise_catch.
    repeat first [ frame_step | apply on_contacts_keeps_id
                 | apply preserves_allSettled; apply Forall_map, Forall_forall; intros ? _
                 | apply send_keeps_id ]. }
  rewrite Hm. reflexivity.
Qed.

End DispatchFrame.

(** ** Power-button press counter *)

Arguments EmergencyService.sendEmergencyNotification : simpl never.

Section PowerButton.

Lemma press_when_triggered mid w :
  PB._state (PB.svc w) = PB.TRIGGERED → PB.press mid w = w.
Proof.
  intros H. unfold PB.press, exec, PB.triggerPowerButton, try_catch, bind at 1, get.
  cbn. rewrite H. reflexivity.
Qed.

(** One press, from a state that has not triggered. *)
Lemma press_step mid w :
  PB._state (PB.svc w) ≠ PB.TRIGGERED →
  PB.press mid w =
    let n := S (PB._pressCount (PB.svc w)) in
    if (n =? PB.REQUIRED_PRESS_COUNT)%nat then
      {| PB.svc := {| PB._pressCount := n; PB._pressTimeout := None;
                      PB._state := PB.TRIGGERED |};
         PB.emergency :=
           exec (ES.sendEmergencyNotification (press_env mid w)) (PB.emergency w);
         PB.timers := cleared w; PB.clock := PB.clock w |}
    else if (n <? PB.REQUIRED_PRESS_COUNT)%nat then
      {| PB.svc := {| PB._pressCount := n;
                      PB._pressTimeout := Some (Timers.next_id (cleared w));
                      PB._state := PB.COUNTING |};
         PB.emergency := PB.emergency w;
         PB.timers :=
           snd (Timers.setTimeout (PB.clock w) PB.PRESS_TIMEOUT_MS PB.ResetToIdle
                                  (cleared w));
         PB.clock := PB.clock w |}
    else
      {| PB.svc := {| PB._pressCount := n; PB._pressTimeout := None;
                      PB._state := PB.COUNTING |};
         PB.emergency := PB.emergency w; PB.timers := cleared w;
         PB.clock := PB.clock w |}.
Proof.
  intros H. destruct w as [[n tmo st] es tb c]. cbn in H.
  unfold cleared, press_env. cbn.
  unfold PB.press, exec, PB.triggerPowerButton, try_catch, bind at 1, get. cbn.
  destruct st; try congruence; cbn;
    (destruct tmo; cbn; destruct (n =? 2)%nat; cbn; try reflexivity;
     destruct (n <=? 1)%nat; reflexivity).
Qed.




End PowerButton.



(** ** SOS countdown *)

Arguments EmergencyConnect.count_triggers : simpl never.

Section Countdown.

Import EC.

Lemma initiateSOS_eq w :
  initiateSOS w =
    {| state := initiated_state (state w) (Timers.next_id (timers w));
       timers :=
         {| Timers.pending :=
              Timers.pending (timers w) ++
              [countdown_timer (Timers.next_id (timers w)) (clock w)];
            Timers.next_id := S (Timers.next_id (timers w)) |};
       clock := clock w; trace := trace w |}.
Proof. destruct w as [s tb c tr]. reflexivity. Qed.

Lemma cancelSOS_eq w :
  cancelSOS w =
    {| state := cancelled_state (state w);
       timers := match countdownTimer (state w) with
                 | Some h => Timers.clearTimeout h (timers w)
                 | None => timers w
                 end;
       clock := clock w; trace := trace w |}.
Proof.
  destruct w as [[cfg cs app net sos ui ps cb [h|]] tb c tr]; reflexivity.
Qed.



(** Time passes and the only pending timer is due. *)
Lemma advance_single d w x :
  Timers.pending (timers w) = [x] → (Timers.due x <= clock w + d)%Z →
  advance d w =
    let w' := Timers.fire timers set_timers clock set_clock run_callback x w in
    set_clock (Z.max (clock w') (clock w + d)) w'.
Proof.
  intros Hp Hdue. unfold advance, Timers.advance. rewrite Hp.
  cbn [length Timers.run_due]. unfold Timers.next_due. rewrite Hp.
  cbn [List.filter]. apply Z.leb_le in Hdue. rewrite Hdue. reflexivity.
Qed.

Lemma count_triggers_app tr tr' :
  count_triggers (tr ++ tr') = (count_triggers tr + count_triggers tr')%nat.
Proof. unfold count_triggers. by rewrite List.filter_app, length_app. Qed.

Lemma trigger_eq w :
  SOSService.trigger w =
    let called := (trace w ++ [TriggerCalled])%list in
    if negb (EmergencyContactManager.hasContacts (state w)) then
      (Return (SOSService.Failure NO_EMERGENCY_CONTACTS),
       {| state := state w; timers := timers w; clock := clock w; trace := called |})
    else if negb (truthy (networkStatus (state w))) then
      (Return (SOSService.Failure NETWORK_DISCONNECTED),
       {| state := state w; timers := timers w; clock := clock w; trace := called |})
    else
      (Return (SOSService.Success (emergencyContacts (state w))
                 (String.eqb (appState (state w)) "background")),
       {| state := sent_state (state w) (clock w);
          timers := timers w; clock := clock w;
          trace :=
            if onSOSTriggered (state w)
            then (called ++
                  [SOSTriggeredCallback (st_sosState (sent_state (state w) (clock w)))])%list
            else called |}).
Proof.
  destruct w as [[cfg cs app net sos ui ps cb h] tb c tr].
  cbv [SOSService.trigger bind log modify get ret set_sos set_state
       state timers clock trace].
  destruct (EmergencyContactManager.hasContacts _); [|reflexivity].
  cbn [negb networkStatus]. destruct (truthy net); [|reflexivity].
  destruct cb; reflexivity.
Qed.

(** The countdown callback calls [SOSService.trigger] exactly when the
    state is flagged initiated. *)
Lemma countdown_callback_eq w :
  exec MisFirePreventionService.countdown_callback w =
    if initiated (st_sosState (state w)) then exec SOSService.trigger w else w.
Proof.
  unfold exec, MisFirePreventionService.countdown_callback, bind, get.
  destruct (initiated (st_sosState (state w))); [|reflexivity].
  by destruct (SOSService.trigger w) as [[r|e] w'].
Qed.

Lemma count_triggers_call : count_triggers [TriggerCalled] = 1%nat.
Proof. reflexivity. Qed.

Lemma count_triggers_callback s : count_triggers [SOSTriggeredCallback s] = 0%nat.
Proof. reflexivity. Qed.

Lemma trigger_calls_trigger w :
  let w' := exec SOSService.trigger w in
  timers w' = timers w ∧ clock w' = clock w ∧ trigger_calls w' = S (trigger_calls w).
Proof.
  unfold exec. rewrite trigger_eq. cbv zeta. unfold trigger_calls.
  destruct (negb (EmergencyContactManager.hasContacts (state w)));
    [cbn; rewrite count_triggers_app, count_triggers_call; repeat split; lia|].
  destruct (negb (truthy (networkStatus (state w))));
    [cbn; rewrite count_triggers_app, count_triggers_call; repeat split; lia|].
  cbn. destruct (onSOSTriggered (state w));
    rewrite !count_triggers_app, ?count_triggers_callback, count_triggers_call;
    repeat split; lia.
Qed.


(** While the state is not flagged initiated, timers that fire call
    nothing and change neither the state nor the trace. *)
Lemma run_due_not_initiated fuel t w :
  initiated (st_sosState (state w)) = false →
  let w' := Timers.run_due timers set_timers clock set_clock run_callback fuel t w in
  state w' = state w ∧ trace w' = trace w.
Proof.
  revert w. induction fuel as [|fuel IH]; intros w Hi; [done|]. cbn.
  destruct (Timers.next_due t (timers w)) as [x|]; [|done].
  assert (Timers.fire timers set_timers clock set_clock run_callback x w
          = set_clock (Z.max (clock w) (Timers.due x))
              (set_timers (Timers.clearTimeout (Timers.id x) (timers w)) w)) as E.
  { unfold Timers.fire, run_callback. destruct (Timers.action x).
    rewrite countdown_callback_eq. cbn. by rewrite Hi. }
  rewrite E. destruct (IH (set_clock (Z.max (clock w) (Timers.due x))
                             (set_timers (Timers.clearTimeout (Timers.id x) (timers w)) w)) Hi)
    as [Hs Ht].
  cbv zeta in Hs, Ht. by rewrite Hs, Ht.
Qed.

(** After [cancel], whatever timers are still pending, no waiting makes
    [SOSService.trigger] run. *)
Lemma nothing_fires_after_cancel d w :
  let w' := advance d (cancelSOS w) in
  trace w' = trace w ∧
  st_sosState (state w') = st_sosState (state (cancelSOS w)).
Proof.
  cbv zeta. unfold advance, Timers.advance.
  destruct (run_due_not_initiated
              (length (Timers.pending (timers (cancelSOS w))))
              (clock (cancelSOS w) + d) (cancelSOS w)) as [Hs Ht].
  { rewrite cancelSOS_eq. reflexivity. }
  cbv zeta in Hs, Ht. cbn. rewrite Hs, Ht. split; [|done].
  rewrite cancelSOS_eq. reflexivity.
Qed.

End Countdown.



(** C4, as the code has it.  [initiateSOS] has no guard on [initiated]:
    every call arms one more countdown timer, so [n] calls in a row leave
    [n] more pending timers; only the newest handle is stored, and
    [cancel] clears only the timer of the stored handle. *)
Theorem C4_initiate_unguarded (w : EC.world) (n : nat) :
  length (Timers.pending (EC.timers (Nat.iter n EC.initiateSOS w)))
    = (length (Timers.pending (EC.timers w)) + n)%nat ∧
  (let w' := EC.initiateSOS w in
   EC.initiated (EC.SystemStateManager.getSOSState w') = true ∧
   EC.countdownTimer (EC.state w') = Some (Timers.next_id (EC.timers w)) ∧
   Timers.pending (EC.timers w') =
     (Timers.pending (EC.timers w) ++
      [countdown_timer (Timers.next_id (EC.timers w)) (EC.clock w)])%list) ∧
  EC.timers (EC.cancelSOS w) =
    match EC.countdownTimer (EC.state w) with
    | Some h => Timers.clearTimeout h (EC.timers w)
    | None => EC.timers w
    end.
Proof.
  split; [|split].
  - induction n as [|n IH]; [cbn; lia|]. rewrite Nat.iter_succ.
    rewrite initiateSOS_eq. cbn [EC.timers Timers.pending].
    rewrite length_app. cbn [length]. lia.
  - rewrite initiateSOS_eq. cbn. done.
  - rewrite cancelSOS_eq. reflexivity.
Qed.

(** C4, as stated, fails: a second [initiateSOS] while the first countdown
    is active is not prevented; two timers are pending, and both fire. *)
Lemma C4_counterexample :
  let w1 := EC.initiateSOS world_with_contact in
  let w2 := EC.initiateSOS w1 in
  EC.initiated (EC.SystemStateManager.getSOSState w1) = true ∧
  length (Timers.pending (EC.timers w1)) = 1%nat ∧
  length (Timers.pending (EC.timers w2)) = 2%nat ∧
  EC.trigger_calls (EC.advance 3000 w2) = 2%nat.
Proof. vm_compute. repeat split; reflexivity. Qed.

(** C8, as the code has it.  [cancel] never changes [sent], the timestamp
    or the trace, so an SOS that was sent stays sent and nothing is
    dispatched; but it is no no-op: it sets [initiated] to [false], hides
    the cancel button and forgets the stored timer handle, in every
    state. *)
Theorem C8_cancel_after_sent (w : EC.world) :
  let w' := EC.cancelSOS w in
  EC.sent (EC.SystemStateManager.getSOSState w')
    = EC.sent (EC.SystemStateManager.getSOSState w) ∧
  EC.timestamp (EC.SystemStateManager.getSOSState w')
    = EC.timestamp (EC.SystemStateManager.getSOSState w) ∧
  EC.trace w' = EC.trace w ∧
  EC.initiated (EC.SystemStateManager.getSOSState w') = false ∧
  EC.SystemStateManager.getUIState w'
    = {| EC.showCancelButton := false; EC.cancelButtonVisible := false |} ∧
  EC.countdownTimer (EC.state w') = None.
Proof. cbv zeta. rewrite cancelSOS_eq. cbn. done. Qed.

(** C8, as stated, fails: after a countdown that fired and sent the SOS,
    [cancel] changes both the SOS state and the UI state. *)
Lemma C8_counterexample :
  EC.sent (EC.SystemStateManager.getSOSState world_sent) = true ∧
  EC.SystemStateManager.getSOSState world_sent
    = {| EC.initiated := true; EC.sent := true; EC.timestamp := Some 3000%Z;
         EC.emergencyOverride := false; EC.crashResistant := false |} ∧
  EC.SystemStateManager.getSOSState (EC.cancelSOS world_sent)
    = {| EC.initiated := false; EC.sent := true; EC.timestamp := Some 3000%Z;
         EC.emergencyOverride := false; EC.crashResistant := false |} ∧
  EC.SystemStateManager.getUIState world_sent
    = {| EC.showCancelButton := true; EC.cancelButtonVisible := true |} ∧
  EC.SystemStateManager.getUIState (EC.cancelSOS world_sent)
    = {| EC.showCancelButton := false; EC.cancelButtonVisible := false |}.
Proof. vm_compute. repeat split; reflexivity. Qed.

(** ** Press-pattern recognizer *)

Section Recognizer.

Import EC.

Lemma hasIrregularInterval_spec (ps : list buttonPress) :
  Utils.hasIrregularInterval (Utils.calculateIntervals (map press_timestamp ps)) = true ↔
  ∃ (i : nat) (p q : buttonPress),
    ps !! i = Some p ∧ ps !! S i = Some q ∧
    (CONSTANTS.MAX_BUTTON_INTERVAL <= press_timestamp q - press_timestamp p)%Z.
Proof.
  induction ps as [|p ps IH]; [split; [discriminate|by intros (i & ? & ? & [=] & _)]|].
  destruct ps as [|q ps].
  { split; [discriminate|]. intros ([|i] & ? & ? & _ & [=] & _). }
  cbn [map Utils.calculateIntervals Utils.hasIrregularInterval existsb] in *.
  rewrite orb_true_iff, Z.leb_le. split.
  - intros [H|H].
    + exists 0%nat, p, q. done.
    + apply IH in H as (i & p' & q' & H1 & H2 & H3). exists (S i), p', q'. done.
  - intros ([|i] & p' & q' & H1 & H2 & H3).
    + cbn in H1, H2. injection H1 as <-. injection H2 as <-. by left.
    + right. apply IH. exists i, p', q'. done.
Qed.

Lemma validatePressIntervals_spec s :
  let irr := Utils.hasIrregularInterval
               (Utils.calculateIntervals (map press_timestamp (buttonPresses s))) in
  MisFirePreventionService.isValidSOS (MisFirePreventionService.validatePressIntervals s)
    = negb irr ∧
  MisFirePreventionService.isFalsePositive (MisFirePreventionService.validatePressIntervals s)
    = Some irr.
Proof.
  unfold MisFirePreventionService.validatePressIntervals.
  destruct (buttonPresses s) as [|p [|q ps]]; cbn [length Nat.ltb Nat.leb map]; try done.
  cbv zeta. by destruct (Utils.hasIrregularInterval _).
Qed.

Lemma handleVolumeButtonPress_eq b w :
  handleVolumeButtonPress b w =
    if MisFirePreventionService.isValidSOS
         (MisFirePreventionService.validateButtonSequence (state (recorded b w)))
    then initiateSOS (recorded b w) else recorded b w.
Proof.
  destruct w as [s tb c tr].
  unfold handleVolumeButtonPress, exec, ButtonEventHandler.handleVolumeButtonPress.
  cbv [bind get set_buttonPresses set_state modify ret state clock timers trace
       buttonPresses fst snd].
  fold (recorded b {| state := s; timers := tb; clock := c; trace := tr |}).
  destruct (MisFirePreventionService.isValidSOS _); [|reflexivity].
  unfold initiateSOS, exec.
  by destruct (MisFirePreventionService.initiateSOS _) as [[r|e] w'].
Qed.

End Recognizer.

(** C5.  Validation is inconclusive (not valid, no false-positive verdict)
    when no button configuration is set, or no press is recorded, or the
    last press is on another button than the configured one; otherwise it
    is a false positive when two consecutive presses are 5000 ms or more
    apart, and valid when none are, which includes fewer than two presses.
    A press event records the press and then initiates the countdown
    exactly when the validation is valid. *)
Theorem C5_press_validation (s : EC.EmergencyState) (b : string) (w : EC.world) :
  let v := EC.MisFirePreventionService.validateButtonSequence in
  (inconclusive s →
   EC.MisFirePreventionService.isValidSOS (v s) = false ∧
   EC.MisFirePreventionService.isFalsePositive (v s) = None) ∧
  (¬ inconclusive s → irregular s →
   EC.MisFirePreventionService.isValidSOS (v s) = false ∧
   EC.MisFirePreventionService.isFalsePositive (v s) = Some true) ∧
  (¬ inconclusive s → ¬ irregular s →
   EC.MisFirePreventionService.isValidSOS (v s) = true ∧
   EC.MisFirePreventionService.isFalsePositive (v s) = Some false) ∧
  ((length (EC.buttonPresses s) < 2)%nat → ¬ irregular s) ∧
  EC.handleVolumeButtonPress b w =
    (if EC.MisFirePreventionService.isValidSOS (v (EC.state (recorded b w)))
     then EC.initiateSOS (recorded b w) else recorded b w).
Proof.
  cbv zeta.
  assert (¬ inconclusive s →
          EC.MisFirePreventionService.validateButtonSequence s
          = EC.MisFirePreventionService.validatePressIntervals s) as Hok.
  { unfold inconclusive, EC.MisFirePreventionService.validateButtonSequence.
    intros Hn. destruct (EC.st_buttonConfig s) as [cfg|]; [|tauto].
    destruct (last (EC.buttonPresses s)) as [p|] eqn:Hl.
    - destruct (String.eqb_spec (EC.press_button p) (EC.button cfg)) as [E|N]; [done|].
      exfalso. apply Hn. right. right. by exists cfg, p.
    - exfalso. apply Hn. right. left. by apply last_None. }
  pose proof (validatePressIntervals_spec s) as [Hv Hf]. cbv zeta in Hv, Hf.
  pose proof (hasIrregularInterval_spec (EC.buttonPresses s)) as Hirr.
  fold (irregular s) in Hirr.
  split; [|split; [|split; [|split]]].
  - unfold inconclusive, EC.MisFirePreventionService.validateButtonSequence.
    intros [->|[Hnil|(cfg & p & -> & -> & Hne)]]; [done| |].
    + rewrite Hnil. cbn. by destruct (EC.st_buttonConfig s).
    + apply String.eqb_neq in Hne. by rewrite Hne.
  - intros Hn Hi. rewrite (Hok Hn), Hv, Hf. apply Hirr in Hi. by rewrite Hi.
  - intros Hn Hi. rewrite (Hok Hn), Hv, Hf.
    destruct (EC.Utils.hasIrregularInterval _); [|done].
    exfalso. by apply Hi, Hirr.
  - intros Hlen (i & p & q & H1 & H2 & _).
    apply lookup_lt_Some in H2. lia.
  - apply handleVolumeButtonPress_eq.
Qed.

(** The end-to-end scenarios: the third of three presses of the configured
    button, 400 ms apart, is valid and initiates the countdown; a press
    6000 ms after the previous one is a false positive and arms nothing. *)
Lemma C5_press_validation_witness :
  let press := EC.handleVolumeButtonPress "volumeUp" in
  let w2 := EC.advance 400 (press (EC.advance 400 (press world_configured))) in
  let v2 := EC.advance 6000 (press world_configured) in
  (EC.MisFirePreventionService.isValidSOS
     (EC.MisFirePreventionService.validateButtonSequence
        (EC.state (recorded "volumeUp" w2))) = true ∧
   press w2 = EC.initiateSOS (recorded "volumeUp" w2)) ∧
  (EC.MisFirePreventionService.isFalsePositive
     (EC.MisFirePreventionService.validateButtonSequence
        (EC.state (recorded "volumeUp" v2))) = Some true ∧
   press v2 = recorded "volumeUp" v2).
Proof.
  intros press w2 v2. split.
  - pose proof (C5_press_validation (EC.state (recorded "volumeUp" w2)) "volumeUp" w2)
      as (_ & _ & Hok & _ & Hh). cbv zeta in Hok, Hh.
    assert (¬ inconclusive (EC.state (recorded "volumeUp" w2))) as Hn.
    { intros [H|[H|(cfg & p & Hc & Hl & Hne)]]; [vm_compute in H; discriminate..|].
      vm_compute in Hc, Hl. injection Hc as <-. injection Hl as <-. by apply Hne. }
    assert (¬ irregular (EC.state (recorded "volumeUp" w2))) as Hi.
    { intros Hi. apply (proj2 (hasIrregularInterval_spec _)) in Hi.
      vm_compute in Hi. discriminate. }
    destruct (Hok Hn Hi) as [Hv _].
    split; [exact Hv|]. unfold press. rewrite Hh, Hv. reflexivity.
  - pose proof (C5_press_validation (EC.state (recorded "volumeUp" v2)) "volumeUp" v2)
      as (_ & Hfp & _ & _ & Hh). cbv zeta in Hfp, Hh.
    assert (¬ inconclusive (EC.state (recorded "volumeUp" v2))) as Hn.
    { intros [H|[H|(cfg & p & Hc & Hl & Hne)]]; [vm_compute in H; discriminate..|].
      vm_compute in Hc, Hl. injection Hc as <-. injection Hl as <-. by apply Hne. }
    assert (irregular (EC.state (recorded "volumeUp" v2))) as Hi.
    { exists 0%nat. eexists. eexists.
      split; [vm_compute; reflexivity|]. split; [vm_compute; reflexivity|].
      vm_compute. discriminate. }
    destruct (Hfp Hn Hi) as [Hv Hf].
    split; [exact Hf|]. unfold press. rewrite Hh, Hv. reflexivity.
Defined.

(** * Further properties of the services *)

Section ContactOperations.

Lemma string_eqb_empty p : negb (String.eqb p "") = true ↔ p ≠ "".
Proof. rewrite negb_true_iff. apply String.eqb_neq. Qed.

(** What [_addValidatedContact] does to an object with a string phone, and
    to anything else. *)
Lemma addValidatedContact_object now ps p s :
  assoc "phone" ps = JStr p →
  CS._addValidatedContact now (JObj ps) s
  = (Return tt, with_contact (normalized_contact now ps p) s).
Proof.
  intros Hp. unfold CS._addValidatedContact, CS._normalizeContact, bind, lift_opt, ret,
    modify. cbn. rewrite Hp. reflexivity.
Qed.

Lemma addValidatedContact_cases now c s :
  CS._addValidatedContact now c s = (Throw TypeError, s) ∨
  ∃ nc, CS._addValidatedContact now c s = (Return tt, with_contact nc s).
Proof.
  destruct c as [| | | | |l|ps]; try (left; reflexivity).
  destruct (assoc "phone" ps) as [| | | |p| |] eqn:Hp;
    try (left; unfold CS._addValidatedContact, CS._normalizeContact, bind, lift_opt;
         cbn; rewrite Hp; reflexivity).
  right. eexists. by apply addValidatedContact_object.
Qed.

Lemma validateContactFormat_object ps p s :
  assoc "phone" ps = JStr p →
  CS._validateContactFormat (JObj ps) s =
    if String.eqb p "" then (Throw CONTACT_REQUIRED, s)
    else if CS._isValidPhoneNumber p then (Return tt, s)
    else (Throw JS.INVALID_PHONE_FORMAT, s).
Proof.
  intros Hp. unfold CS._validateContactFormat. cbn. rewrite Hp. cbn.
  destruct (String.eqb p ""); [reflexivity|]. cbn.
  by destruct (CS._isValidPhoneNumber p).
Qed.

Lemma validateContactFormat_no_phone c s :
  (∀ ps p, c = JObj ps → assoc "phone" ps = JStr p → p = "") →
  CS._validateContactFormat c s = (Throw CONTACT_REQUIRED, s).
Proof.
  intros H. destruct c as [| |b|x|str|l|ps]; try reflexivity.
  - unfold CS._validateContactFormat. cbn. by destruct b.
  - unfold CS._validateContactFormat. cbn. by rewrite orb_true_r.
  - unfold CS._validateContactFormat. cbn. by rewrite orb_true_r.
  - destruct (assoc "phone" ps) as [| | | |p| |] eqn:Hp;
      try (unfold CS._validateContactFormat; cbn; rewrite Hp; reflexivity).
    rewrite (validateContactFormat_object ps p s Hp).
    by rewrite (H ps p eq_refl Hp).
Qed.

(** An argument that is no object with a non-empty string phone is
    refused first. *)
Lemma addEmergencyContact_no_phone now c s :
  (∀ ps p, c = JObj ps → assoc "phone" ps = JStr p → p = "") →
  CS.addEmergencyContact now c s = (Throw CONTACT_REQUIRED, s).
Proof.
  intros H. unfold CS.addEmergencyContact, bind at 1.
  by rewrite validateContactFormat_no_phone.
Qed.

(** The decision table of [addEmergencyContact] on an object with a
    string phone. *)
Lemma addEmergencyContact_object now ps p s :
  assoc "phone" ps = JStr p →
  CS.addEmergencyContact now (JObj ps) s =
    if String.eqb p "" then (Throw CONTACT_REQUIRED, s)
    else if negb (CS._isValidPhoneNumber p) then (Throw JS.INVALID_PHONE_FORMAT, s)
    else if (CS.MAX_CONTACTS <=? CS.getContactCount s)%nat
         then (Throw MAX_CONTACTS_EXCEEDED, s)
    else if bool_decide (is_Some (CS._contactsByPhone s !! p))
         then (Throw DUPLICATE_PHONE, s)
    else (Return tt, with_contact (normalized_contact now ps p) s).
Proof.
  intros Hp. unfold CS.addEmergencyContact, bind at 1.
  rewrite (validateContactFormat_object ps p s Hp).
  destruct (String.eqb p ""); [reflexivity|].
  destruct (CS._isValidPhoneNumber p); [|reflexivity]. cbn [negb].
  unfold bind at 1, CS._checkContactLimits, bind at 1, get.
  destruct (CS.MAX_CONTACTS <=? CS.getContactCount s)%nat; [reflexivity|].
  cbn. rewrite Hp. cbn. unfold bind at 1, CS._checkDuplicatePhone, bind at 1, get.
  destruct (bool_decide (is_Some (CS._contactsByPhone s !! p))); [reflexivity|].
  cbn. by apply addValidatedContact_object.
Qed.

(** An add either throws and changes nothing, or stores one contact. *)
Lemma addEmergencyContact_cases now c s :
  (∃ e, CS.addEmergencyContact now c s = (Throw e, s)) ∨
  (∃ nc, CS.addEmergencyContact now c s = (Return tt, with_contact nc s)).
Proof.
  assert (∀ c', (∀ ps p, c' = JObj ps → assoc "phone" ps = JStr p → p = "") →
                ∃ e, CS.addEmergencyContact now c' s = (Throw e, s)) as Hno.
  { intros c' H. exists CONTACT_REQUIRED. unfold CS.addEmergencyContact, bind at 1.
    by rewrite validateContactFormat_no_phone. }
  destruct c as [| |b|x|str|l|ps]; try (left; apply Hno; by intros ps p [=]).
  destruct (assoc "phone" ps) as [| | | |p| |] eqn:Hp;
    try (left; apply Hno; intros ps' p' [= <-] Hp'; congruence).
  rewrite (addEmergencyContact_object now ps p s Hp).
  repeat match goal with
         | |- context [if ?b then _ else _] => destruct b; [left; by eexists|]
         end.
  right. by eexists.
Qed.

End ContactOperations.

(** X1.  [addEmergencyContact] fails, leaving the registry as it was, with
    the contact-required error when the argument is no object with a
    non-empty string phone, with the invalid-format error when that phone
    fails the format, with the limit error when ten phones are registered,
    and with the duplicate error when the phone as written is a key; the
    checks are made in this order. *)
Theorem X1_add_failures (now : Z) (c : jsval) (s : CS.t) :
  ((∀ ps p, c = JObj ps → assoc "phone" ps = JStr p → p = "") →
   CS.addEmergencyContact now c s = (Throw CONTACT_REQUIRED, s)) ∧
  (∀ ps p, c = JObj ps → assoc "phone" ps = JStr p → p ≠ "" →
     (CS._isValidPhoneNumber p = false →
      CS.addEmergencyContact now c s = (Throw JS.INVALID_PHONE_FORMAT, s)) ∧
     (CS._isValidPhoneNumber p = true →
      (CS.MAX_CONTACTS <= CS.getContactCount s)%nat →
      CS.addEmergencyContact now c s = (Throw MAX_CONTACTS_EXCEEDED, s)) ∧
     (CS._isValidPhoneNumber p = true →
      (CS.getContactCount s < CS.MAX_CONTACTS)%nat →
      is_Some (CS._contactsByPhone s !! p) →
      CS.addEmergencyContact now c s = (Throw DUPLICATE_PHONE, s))).
Proof.
  split.
  - apply addEmergencyContact_no_phone.
  - intros ps p -> Hp Hne. apply String.eqb_neq in Hne.
    rewrite (addEmergencyContact_object now ps p s Hp), Hne.
    split; [intros ->; reflexivity|].
    split; intros ->; cbn [negb].
    + intros Hmax. apply Nat.leb_le in Hmax. by rewrite Hmax.
    + intros Hlt Hk. apply Nat.leb_gt in Hlt. rewrite Hlt.
      by rewrite bool_decide_eq_true_2.
Qed.

Lemma X1_add_failures_witness :
  CS.addEmergencyContact 0 JNull CS.new = (Throw CONTACT_REQUIRED, CS.new) ∧
  CS.addEmergencyContact 0 malformed_contact CS.new
    = (Throw JS.INVALID_PHONE_FORMAT, CS.new).
Proof.
  split.
  - apply (proj1 (X1_add_failures 0 JNull CS.new)). intros ps p [=].
  - destruct (proj2 (X1_add_failures 0 malformed_contact CS.new)
                [("name", JStr "x"); ("phone", JStr "abc")] "abc" eq_refl eq_refl
                ltac:(discriminate)) as [H _].
    apply H. vm_compute. reflexivity.
Defined.

(** X2.  An add of an object whose phone is valid, with fewer than ten
    phones registered and the phone as written no key, returns normally;
    the new contact, with its phone normalized and its name and priority
    defaulted, is found under the normalized phone and is the last of the
    listed contacts, and every other phone is found as before. *)
Theorem X2_add_then_find (now : Z) (ps : list (string * jsval)) (p : string) (s : CS.t) :
  assoc "phone" ps = JStr p →
  CS._isValidPhoneNumber p = true →
  (CS.getContactCount s < CS.MAX_CONTACTS)%nat →
  CS._contactsByPhone s !! p = None →
  let nc := normalized_contact now ps p in
  let s' := exec (CS.addEmergencyContact now (JObj ps)) s in
  eval (CS.addEmergencyContact now (JObj ps)) s = Return tt ∧
  CS.findContactByPhone (CS._normalizePhoneNumber p) s' = Some nc ∧
  CS.getEmergencyContacts s' = (CS.getEmergencyContacts s ++ [nc])%list ∧
  (∀ q, q ≠ CS._normalizePhoneNumber p →
        CS.findContactByPhone q s' = CS.findContactByPhone q s).
Proof.
  intros Hp Hv Hlt Hk nc s'.
  assert (CS.addEmergencyContact now (JObj ps) s = (Return tt, with_contact nc s)) as E.
  { rewrite (addEmergencyContact_object now ps p s Hp), Hv.
    assert (String.eqb p "" = false) as ->.
    { destruct p; [|reflexivity]. vm_compute in Hv. discriminate. }
    apply Nat.leb_gt in Hlt. rewrite Hlt. cbn [negb].
    by rewrite bool_decide_eq_false_2 by (rewrite Hk; by intros [? [=]]). }
  subst s'. unfold eval, exec. rewrite E. cbn.
  unfold CS.findContactByPhone, CS.getEmergencyContacts. cbn.
  split; [done|]. split; [apply lookup_insert_eq|]. split; [done|].
  intros q Hq. by apply lookup_insert_ne.
Qed.

Lemma X2_add_then_find_witness :
  CS.findContactByPhone "09012345678"
    (exec (CS.addEmergencyContact 7 hyphenated_contact) CS.new)
  = Some (normalized_contact 7 [("name", JStr "A"); ("phone", JStr "090-1234-5678")]
            "090-1234-5678").
Proof.
  destruct (X2_add_then_find 7 [("name", JStr "A"); ("phone", JStr "090-1234-5678")]
              "090-1234-5678" CS.new eq_refl eq_refl
              ltac:(vm_compute; lia) eq_refl) as (_ & H & _).
  exact H.
Defined.

Section ContactInvariants.

Lemma removeEmergencyContact_eq ph s :
  CS.removeEmergencyContact ph s =
    if bool_decide (is_Some (CS._contactsByPhone s !! ph)) then
      (Return true,
       {| CS._contactsByPhone := delete ph (CS._contactsByPhone s);
          CS._contactOrder :=
            List.filter (fun c => negb (String.eqb (CS.phone c) ph)) (CS._contactOrder s) |})
    else (Return false, s).
Proof.
  unfold CS.removeEmergencyContact, bind at 1, get.
  by destruct (bool_decide (is_Some (CS._contactsByPhone s !! ph))).
Qed.

Lemma with_contact_consistent nc s :
  registry_consistent s → registry_consistent (with_contact nc s).
Proof.
  intros [Hm Hl]. split; cbn.
  - intros p c. destruct (decide (CS.phone nc = p)) as [<-|Hne].
    + rewrite lookup_insert_eq. intros [= <-]. split; [done|].
      apply in_or_app. right. by left.
    + rewrite lookup_insert_ne by done. intros H. destruct (Hm p c H) as [H1 H2].
      split; [done|]. apply in_or_app. by left.
  - intros c [Hc|[<-|[]]]%in_app_or.
    + apply lookup_insert_is_Some'. right. by apply Hl.
    + rewrite lookup_insert_eq. by eexists.
Qed.

Lemma forEach_add_consistent now cs s :
  registry_consistent s → registry_consistent (exec (CS.forEach_add now cs) s).
Proof.
  revert s. induction cs as [|c cs IH]; intros s Hs; [done|].
  unfold exec. cbn [CS.forEach_add]. unfold bind at 1, try_catch.
  destruct (addValidatedContact_cases now c s) as [->|[nc ->]]; cbn.
  - by apply IH.
  - by apply IH, with_contact_consistent.
Qed.

Lemma new_consistent : registry_consistent CS.new.
Proof. split; cbn; [intros p c; by rewrite lookup_empty|intros c []]. Qed.

Lemma str_filter_idem f s : str_filter f (str_filter f s) = str_filter f s.
Proof.
  induction s as [|c s IH]; [done|]. cbn.
  destruct (f c) eqn:E; cbn; [rewrite E|]; by rewrite IH.
Qed.

Lemma str_forall_filter f g s :
  str_forall g (str_filter f s) = true ↔
  (∀ c, In c (list_ascii_of_string s) → f c = true → g c = true).
Proof.
  induction s as [|c s IH]; cbn; [by split|].
  destruct (f c) eqn:E; cbn.
  - rewrite andb_true_iff, IH. split.
    + intros [Hc Hs] c' [<-|Hin] Hf; [done|by apply Hs].
    + intros H. split; [apply H; auto|]. intros c' Hin Hf. apply H; auto.
  - rewrite IH. split.
    + intros Hs c' [<-|Hin] Hf; [congruence|by apply Hs].
    + intros H c' Hin Hf. apply H; auto.
Qed.

Lemma digits_9_10_spec r :
  CS.digits_9_10 r = true →
  str_forall is_digit r = true ∧ (9 <= String.length r <= 10)%nat.
Proof.
  unfold CS.digits_9_10. intros [H1 H2]%andb_true_iff. split; [done|].
  apply orb_true_iff in H2 as [H2|H2]; apply Nat.eqb_eq in H2; lia.
Qed.

Lemma str_forall_impl (f g : ascii → bool) s :
  (∀ c, f c = true → g c = true) → str_forall f s = true → str_forall g s = true.
Proof.
  intros H. induction s as [|c s IH]; cbn; [done|].
  intros [H1 H2]%andb_true_iff. by rewrite (H c H1), IH.
Qed.

End ContactInvariants.

(** X3.  [removeEmergencyContact] of a phone that is no key returns false
    and changes nothing; of a key it returns true, after which the phone
    is not found, no listed contact has it, and every other phone and
    listed contact is as before. *)
Theorem X3_remove (ph : string) (s : CS.t) :
  (CS._contactsByPhone s !! ph = None →
   CS.removeEmergencyContact ph s = (Return false, s)) ∧
  (is_Some (CS._contactsByPhone s !! ph) →
   let s' := exec (CS.removeEmergencyContact ph) s in
   eval (CS.removeEmergencyContact ph) s = Return true ∧
   CS.findContactByPhone ph s' = None ∧
   (∀ q, q ≠ ph → CS.findContactByPhone q s' = CS.findContactByPhone q s) ∧
   (∀ c, In c (CS.getEmergencyContacts s') ↔
         In c (CS.getEmergencyContacts s) ∧ CS.phone c ≠ ph) ∧
   CS.getContactCount s' = pred (CS.getContactCount s)).
Proof.
  rewrite removeEmergencyContact_eq. split.
  - intros H. rewrite bool_decide_eq_false_2; [done|]. rewrite H. by intros [? [=]].
  - intros H. unfold eval, exec. rewrite removeEmergencyContact_eq.
    rewrite bool_decide_eq_true_2 by done. cbn.
    unfold CS.findContactByPhone, CS.getEmergencyContacts, CS.getContactCount. cbn.
    split; [done|]. split; [apply lookup_delete_eq|].
    split; [intros q Hq; by apply lookup_delete_ne|]. split.
    + intros c. rewrite filter_In, negb_true_iff. by rewrite String.eqb_neq.
    + by rewrite map_size_delete_Some.
Qed.

Lemma X3_remove_witness :
  let s := exec (CS.addEmergencyContact 0 hyphenated_contact) CS.new in
  CS.removeEmergencyContact "090-1234-5678" s = (Return false, s) ∧
  CS.getEmergencyContacts (exec (CS.removeEmergencyContact "09012345678") s) = [].
Proof.
  intros s. split.
  - apply (proj1 (X3_remove "090-1234-5678" s)). vm_compute. reflexivity.
  - destruct (proj2 (X3_remove "09012345678" s)) as (_ & _ & _ & H & _).
    { vm_compute. by eexists. }
    destruct (CS.getEmergencyContacts _) as [|c l] eqn:E; [done|].
    exfalso. destruct (proj1 (H c) (or_introl eq_refl)) as [Hin Hne].
    vm_compute in Hin. destruct Hin as [<-|[]]. by apply Hne.
Defined.

(** X4.  The map and the list of the registry stay consistent: under every
    key sits a contact with that phone which is also listed, and every
    listed contact's phone is a key.  This holds for a new registry, after
    every [setEmergencyContacts], and is kept by [addEmergencyContact],
    [removeEmergencyContact] and [reset]. *)
Theorem X4_registry_consistent (now : Z) (v c : jsval) (ph : string) (s : CS.t) :
  registry_consistent CS.new ∧
  registry_consistent (exec (CS.setEmergencyContacts now v) s) ∧
  registry_consistent (exec CS.reset s) ∧
  (registry_consistent s →
   registry_consistent (exec (CS.addEmergencyContact now c) s) ∧
   registry_consistent (exec (CS.removeEmergencyContact ph) s)).
Proof.
  split; [apply new_consistent|]. split; [|split; [apply new_consistent|]].
  - unfold CS.setEmergencyContacts, exec, bind at 1. cbn.
    apply (forEach_add_consistent now _ CS.new), new_consistent.
  - intros Hs. split.
    + unfold exec.
      destruct (addEmergencyContact_cases now c s) as [[e ->]|[nc ->]]; cbn; [done|].
      by apply with_contact_consistent.
    + unfold exec. rewrite removeEmergencyContact_eq.
      destruct (bool_decide _); [|done]. cbn. destruct Hs as [Hm Hl]. split; cbn.
      * intros p c0. destruct (decide (ph = p)) as [<-|Hne].
        { by rewrite lookup_delete_eq. }
        rewrite lookup_delete_ne by done. intros H. destruct (Hm p c0 H) as [H1 H2].
        split; [done|]. apply filter_In. split; [done|].
        apply negb_true_iff, String.eqb_neq. congruence.
      * intros c0 [Hin Hne]%filter_In.
        apply negb_true_iff, String.eqb_neq in Hne.
        rewrite lookup_delete_ne by done. by apply Hl.
Qed.

Lemma X4_registry_consistent_witness :
  registry_consistent
    (exec (CS.removeEmergencyContact "09012345678")
       (exec (CS.addEmergencyContact 1 hyphenated_contact)
          (exec (CS.addEmergencyContact 0 hyphenated_contact) CS.new))).
Proof.
  pose proof (X4_registry_consistent 0 JNull hyphenated_contact "" CS.new) as (H0 & _ & _ & H1).
  destruct (H1 H0) as [Ha _].
  pose proof (X4_registry_consistent 1 JNull hyphenated_contact ""
                (exec (CS.addEmergencyContact 0 hyphenated_contact) CS.new))
    as (_ & _ & _ & H2).
  destruct (H2 Ha) as [Hb _].
  pose proof (X4_registry_consistent 1 JNull JNull "09012345678"
                (exec (CS.addEmergencyContact 1 hyphenated_contact)
                   (exec (CS.addEmergencyContact 0 hyphenated_contact) CS.new)))
    as (_ & _ & _ & H3).
  exact (proj2 (H3 Hb)).
Defined.

(** X5.  [addEmergencyContact] never takes the number of registered phones
    above the limit of ten, and never lowers it. *)
Theorem X5_add_keeps_limit (now : Z) (c : jsval) (s : CS.t) :
  (CS.getContactCount s <= CS.MAX_CONTACTS)%nat →
  (CS.getContactCount s
   <= CS.getContactCount (exec (CS.addEmergencyContact now c) s)
   <= CS.MAX_CONTACTS)%nat.
Proof.
  intros Hle. unfold exec.
  destruct c as [| |b|x|str|l|ps];
    try (rewrite (addEmergencyContact_no_phone now _ s) by (by intros ps p [=]); cbn; lia).
  destruct (assoc "phone" ps) as [| | | |p| |] eqn:Hp;
    try (rewrite (addEmergencyContact_no_phone now _ s)
           by (intros ps' p' [= <-] Hp'; congruence); cbn; lia).
  rewrite (addEmergencyContact_object now ps p s Hp).
  destruct (String.eqb p ""); [cbn; lia|].
  destruct (negb _); [cbn; lia|].
  destruct (Nat.leb_spec CS.MAX_CONTACTS (CS.getContactCount s)); [cbn; lia|].
  destruct (bool_decide _); [cbn; lia|].
  cbn. unfold CS.getContactCount, CS.MAX_CONTACTS in *. cbn. rewrite map_size_insert.
  destruct (CS._contactsByPhone s !! _); unfold id; lia.
Qed.

Lemma X5_add_keeps_limit_witness :
  (CS.getContactCount (exec (CS.addEmergencyContact 0 hyphenated_contact) CS.new)
   <= CS.MAX_CONTACTS)%nat.
Proof.
  apply (X5_add_keeps_limit 0 hyphenated_contact CS.new). vm_compute. lia.
Defined.

Section PhoneFormat.

Lemma phone_regex_spec s :
  CS.phone_regex s = true →
  ∃ pre r, s = (pre ++ r)%string ∧ (pre = "0" ∨ pre = "+81" ∨ pre = "81") ∧
           CS.digits_9_10 r = true.
Proof.
  assert (∀ pre r, (pre = "0" ∨ pre = "+81" ∨ pre = "81") →
                   CS.digits_9_10 r = true →
                   ∃ pre' r', (pre ++ r)%string = (pre' ++ r')%string ∧
                              (pre' = "0" ∨ pre' = "+81" ∨ pre' = "81") ∧
                              CS.digits_9_10 r' = true) as Hex by eauto.
  destruct s as [|a s]; [discriminate|].
  destruct a as [[] [] [] [] [] [] [] []]; try discriminate; cbn;
    try (intros H; apply (Hex "0" s); by auto);
    (destruct s as [|a s]; [discriminate|]);
    destruct a as [[] [] [] [] [] [] [] []]; try discriminate; cbn;
    try (intros H; apply (Hex "81" s); by auto);
    (destruct s as [|a s]; [discriminate|]);
    destruct a as [[] [] [] [] [] [] [] []]; try discriminate; cbn;
    intros H; apply (Hex "+81" s); by auto.
Qed.

Lemma length_append (a b : string) :
  String.length (a ++ b)%string = (String.length a + String.length b)%nat.
Proof. induction a as [|c a IH]; simpl; [reflexivity|]. rewrite IH. reflexivity. Qed.

Lemma str_forall_append f (a b : string) :
  str_forall f (a ++ b)%string = str_forall f a && str_forall f b.
Proof. induction a as [|c a IH]; simpl; [reflexivity|]. by rewrite IH, andb_assoc. Qed.

Lemma valid_phone_shape p :
  CS._isValidPhoneNumber p = true →
  (10 <= String.length (CS._normalizePhoneNumber p) <= 13)%nat ∧
  str_forall digit_or_plus (CS._normalizePhoneNumber p) = true.
Proof.
  intros H. apply phone_regex_spec in H as (pre & r & E & Hpre & Hd).
  apply digits_9_10_spec in Hd as [Hd Hl].
  unfold CS._isValidPhoneNumber in *. rewrite E, length_append, str_forall_append.
  assert (str_forall digit_or_plus r = true) as ->.
  { eapply str_forall_impl; [|exact Hd]. intros c Hc. unfold digit_or_plus. by rewrite Hc. }
  destruct Hpre as [-> | [-> | ->] ]; cbn; (split; [lia|reflexivity]).
Qed.

End PhoneFormat.

(** X6.  Normalizing a phone is idempotent and leaves none of the
    separators (hyphen, white space, parentheses); a phone is valid exactly
    when its normalized form is; and the normalized form of a valid phone
    has 10 to 13 characters, all digits or [+]. *)
Theorem X6_phone_normalization (p : string) :
  CS._normalizePhoneNumber (CS._normalizePhoneNumber p) = CS._normalizePhoneNumber p ∧
  str_forall kept (CS._normalizePhoneNumber p) = true ∧
  CS._isValidPhoneNumber (CS._normalizePhoneNumber p) = CS._isValidPhoneNumber p ∧
  (CS._isValidPhoneNumber p = true →
   (10 <= String.length (CS._normalizePhoneNumber p) <= 13)%nat ∧
   str_forall digit_or_plus (CS._normalizePhoneNumber p) = true).
Proof.
  split; [apply str_filter_idem|]. split.
  - apply (str_forall_filter kept kept). auto.
  - split; [|apply valid_phone_shape].
    unfold CS._isValidPhoneNumber, CS._normalizePhoneNumber. by rewrite str_filter_idem.
Qed.

Lemma X6_phone_normalization_witness :
  (10 <= String.length (CS._normalizePhoneNumber "+81 (90) 1234-5678") <= 13)%nat.
Proof.
  apply (proj1 (proj2 (proj2 (proj2 (X6_phone_normalization "+81 (90) 1234-5678")))
                  ltac:(vm_compute; reflexivity))).
Defined.

Section LocationFacts.

Lemma valid_or_null_sound o l :
  LS.valid_or_null o = Some l → o = Some l ∧ LS._isValidLocationData (JObj l) = true.
Proof.
  unfold LS.valid_or_null. destruct o as [l'|]; [|discriminate].
  destruct (LS._isValidLocationData (JObj l')) eqn:E; [|discriminate].
  by intros [= <-].
Qed.

Lemma valid_or_null_valid l :
  LS._isValidLocationData (JObj l) = true → LS.valid_or_null (Some l) = Some l.
Proof. intros H. unfold LS.valid_or_null. by rewrite H. Qed.

End LocationFacts.

(** X7.  After [setCurrentLocation] of a location within the bounds, that
    location is the last-known one, it is the current one unless the
    unavailable flag hides it, and it is the best available location
    whatever the flag is then set to. *)
Theorem X7_set_current_then_get (ps : LS.location) (v : jsval) (s : LS.t) :
  LS._isValidLocationData (JObj ps) = true →
  let s' := exec (LS.setCurrentLocation (JObj ps)) s in
  LS.getLastKnownLocation s' = Some ps ∧
  LS.getCurrentLocation s' = (if LS._isLocationUnavailable s then None else Some ps) ∧
  LS.getBestAvailableLocation s' = Some ps ∧
  LS.getBestAvailableLocation (exec (LS.setLocationUnavailable v) s') = Some ps.
Proof.
  intros Hv s'. subst s'. unfold exec. rewrite setCurrentLocation_cases.
  cbn [truthy negb snd]. rewrite Hv. cbn [LS.spread].
  unfold LS.getBestAvailableLocation, LS.getCurrentLocation, LS.getLastKnownLocation,
    LS.valid_or_null, LS.setLocationUnavailable, modify.
  cbn. split; [done|]. split; [done|].
  split; [destruct (LS._isLocationUnavailable s)|destruct (truthy v)]; cbn;
    by rewrite ?Hv.
Qed.

Lemma X7_set_current_then_get_witness :
  LS.getBestAvailableLocation
    (exec (LS.setLocationUnavailable (JBool true))
       (exec (LS.setCurrentLocation (JObj tokyo)) LS.new)) = Some tokyo.
Proof.
  apply (X7_set_current_then_get tokyo (JBool true) LS.new). vm_compute. reflexivity.
Defined.

(** X8.  Whatever the cache holds, the location [getBestAvailableLocation]
    returns is within the coordinate bounds and is the visible current
    location or the last-known one; and when the stored locations are
    within bounds, it returns nothing only if there is no last-known
    location and no visible current one. *)
Theorem X8_best_available_sound (s : LS.t) :
  (∀ l, LS.getBestAvailableLocation s = Some l →
        LS._isValidLocationData (JObj l) = true ∧
        (LS.getCurrentLocation s = Some l ∨ LS.getLastKnownLocation s = Some l)) ∧
  (stored_valid s → LS.getBestAvailableLocation s = None →
   LS.getLastKnownLocation s = None ∧ LS.getCurrentLocation s = None).
Proof.
  unfold LS.getBestAvailableLocation. split.
  - intros l. destruct (LS.valid_or_null (LS.getCurrentLocation s)) as [c|] eqn:Ec.
    + intros [= <-]. apply valid_or_null_sound in Ec as [-> Hc]. auto.
    + intros [-> Hl]%valid_or_null_sound. auto.
  - intros [Hc Hk].
    unfold LS.getCurrentLocation, LS.getLastKnownLocation, LS.valid_or_null.
    destruct (LS._isLocationUnavailable s).
    + destruct (LS._lastKnownLocation s) as [l|] eqn:El; [|done].
      by rewrite (Hk l eq_refl).
    + destruct (LS._currentLocation s) as [c|] eqn:E; [by rewrite (Hc c eq_refl)|].
      destruct (LS._lastKnownLocation s) as [l|] eqn:El; [|done].
      by rewrite (Hk l eq_refl).
Qed.

Lemma X8_best_available_sound_witness :
  LS._isValidLocationData (JObj tokyo) = true.
Proof.
  apply (proj1 (X8_best_available_sound cache_with_fix) tokyo). vm_compute. reflexivity.
Defined.

(** X9.  A current-location update that is empty or fails validation never
    loses the last-known fix: if the last-known location is within bounds,
    it is the best available location after such an update. *)
Theorem X9_failed_update_falls_back (v : jsval) (l : LS.location) (s : LS.t) :
  LS._isValidLocationData v = false →
  LS._lastKnownLocation s = Some l →
  LS._isValidLocationData (JObj l) = true →
  LS.getBestAvailableLocation (exec (LS.setCurrentLocation v) s) = Some l.
Proof.
  intros Hv Hl Hlv. unfold exec. rewrite setCurrentLocation_cases, Hv.
  assert ((if negb (truthy v)
           then {| LS._currentLocation := None;
                   LS._lastKnownLocation := LS._lastKnownLocation s;
                   LS._isLocationUnavailable := LS._isLocationUnavailable s |}
           else {| LS._currentLocation := None;
                   LS._lastKnownLocation := LS._lastKnownLocation s;
                   LS._isLocationUnavailable := LS._isLocationUnavailable s |})
          = {| LS._currentLocation := None;
               LS._lastKnownLocation := LS._lastKnownLocation s;
               LS._isLocationUnavailable := LS._isLocationUnavailable s |}) as E
    by (by destruct (negb (truthy v))).
  cbn [snd]. rewrite E.
  unfold LS.getBestAvailableLocation, LS.getCurrentLocation, LS.getLastKnownLocation,
    LS.valid_or_null.
  cbn. rewrite Hl, Hlv.
  by destruct (LS._isLocationUnavailable s).
Qed.

Lemma X9_failed_update_falls_back_witness :
  LS.getBestAvailableLocation (exec (LS.setCurrentLocation out_of_bounds) cache_with_fix)
  = Some tokyo.
Proof.
  apply (X9_failed_update_falls_back out_of_bounds tokyo cache_with_fix);
    vm_compute; reflexivity.
Defined.

Section FanOut.

Lemma caught_send_eq e c msg s :
  ES.promise_catch (ES._sendMessageToContact e (CS.phone c) msg)
    (fun error => {| ES.sv_phone := CS.phone c; ES.sv_result := ES.FAILED;
                     ES.sv_sentAt := None; ES.sv_error := Some error |}) s
  = (Return (attempt_value e c), attempt e msg s c).
Proof.
  unfold ES.promise_catch, ES._sendMessageToContact, ES._simulateMessageSending,
    attempt, attempt_value, try_catch, bind at 1.
  destruct (ES._isInvalidPhoneNumber (CS.phone c)) eqn:E; [reflexivity|].
  unfold ES._isInvalidPhoneNumber in E.
  apply orb_false_iff in E as [[_ E]%orb_false_iff _]. cbn. rewrite E. reflexivity.
Qed.

Lemma sendToAllContacts_eq e nd s :
  ES._sendToAllContacts e nd s =
    (Return (map (fun c => ES.fulfilled (attempt_value e c)) (ES.nd_contacts nd)),
     fold_left (attempt e (ES.nd_message nd)) (ES.nd_contacts nd) s).
Proof.
  unfold ES._sendToAllContacts. generalize (ES.nd_message nd) as msg. intros msg.
  revert s. induction (ES.nd_contacts nd) as [|c cs IH]; intros s; [reflexivity|].
  cbn [map ES.allSettled fold_left]. unfold bind at 1. rewrite caught_send_eq.
  unfold bind at 1. rewrite IH. reflexivity.
Qed.

(** What the attempts leave untouched, and what they count. *)
Lemma attempts_frame e msg cs s :
  let s' := fold_left (attempt e msg) cs s in
  ES._locationService s' = ES._locationService s ∧
  ES._contactService s' = ES._contactService s ∧
  ES._notificationHistory s' = ES._notificationHistory s ∧
  ES._lastNotificationId s' = ES._lastNotificationId s ∧
  ES.totalNotifications (ES._statistics s') = ES.totalNotifications (ES._statistics s) ∧
  ES.lastNotificationTime (ES._statistics s') = ES.lastNotificationTime (ES._statistics s) ∧
  ES.successfulSends (ES._statistics s')
    = (ES.successfulSends (ES._statistics s) + length (sendable cs))%nat ∧
  ES.failedSends (ES._statistics s')
    = (ES.failedSends (ES._statistics s) + (length cs - length (sendable cs)))%nat ∧
  (length (sendable cs) <= length cs)%nat.
Proof.
  revert s. induction cs as [|c cs IH]; intros s; cbn [fold_left sendable List.filter].
  { cbn. repeat split; lia. }
  specialize (IH (attempt e msg s c)). cbv zeta in IH.
  destruct IH as (H1 & H2 & H3 & H4 & H5 & H6 & H7 & H8 & H9).
  fold (sendable cs). rewrite H1, H2, H3, H4, H5, H6, H7, H8. unfold attempt.
  destruct (ES._isInvalidPhoneNumber (CS.phone c)); cbn; repeat split; lia.
Qed.

Lemma attempts_messages e msg cs s ph :
  let s' := fold_left (attempt e msg) cs s in
  (ph ∈ map CS.phone (sendable cs) →
   ES._sentMessages s' !! ph
   = Some {| ES.sent_message := msg; ES.sentAt := ES.t_sent e; ES.status := ES.SUCCESS |}) ∧
  (ph ∉ map CS.phone (sendable cs) →
   ES._sentMessages s' !! ph = ES._sentMessages s !! ph).
Proof.
  cbv zeta. revert s. induction cs as [|c cs IH]; intros s; cbn [fold_left sendable List.filter].
  { cbn. split; [by intros ?%elem_of_nil|done]. }
  fold (sendable cs). destruct (IH (attempt e msg s c)) as [IH1 IH2].
  destruct (decide (ph ∈ map CS.phone (sendable cs))) as [Hin|Hnin].
  - split; [intros _; by apply IH1|].
    intros Hn. exfalso. apply Hn.
    destruct (negb (ES._isInvalidPhoneNumber (CS.phone c))); [apply elem_of_cons; right|]; done.
  - rewrite (IH2 Hnin). unfold attempt.
    destruct (ES._isInvalidPhoneNumber (CS.phone c)); cbn [negb map ES._sentMessages].
    + split; [intros H; by destruct (Hnin H)|done].
    + split.
      * intros [->|H]%elem_of_cons; [apply lookup_insert_eq|by destruct (Hnin H)].
      * intros Hn. apply lookup_insert_ne. intros E. apply Hn, elem_of_cons. by left.
Qed.

End FanOut.

(** X10.  The fan-out counts every attempt once: [successfulSends] grows
    by the number of contacts whose phone passes the check of the send,
    [failedSends] by the number of the others, and nothing else of the
    statistics, the history or the services changes.  A phone has a sent
    message recorded afterwards exactly if it is such a contact's phone,
    with the message of this notification, or had one before. *)
Theorem X10_fan_out_accounting (e : ES.env) (nd : ES.notificationData) (s : ES.t)
    (ph : string) :
  let s' := exec (ES._sendToAllContacts e nd) s in
  let ok := sendable (ES.nd_contacts nd) in
  ES.successfulSends (ES._statistics s')
    = (ES.successfulSends (ES._statistics s) + length ok)%nat ∧
  ES.failedSends (ES._statistics s')
    = (ES.failedSends (ES._statistics s) + (length (ES.nd_contacts nd) - length ok))%nat ∧
  ES.totalNotifications (ES._statistics s') = ES.totalNotifications (ES._statistics s) ∧
  ES._notificationHistory s' = ES._notificationHistory s ∧
  ES._contactService s' = ES._contactService s ∧
  ES._locationService s' = ES._locationService s ∧
  ES.getMessageSentTo ph s' =
    (if bool_decide (ph ∈ map CS.phone ok)
     then Some {| ES.sent_message := ES.nd_message nd; ES.sentAt := ES.t_sent e;
                  ES.status := ES.SUCCESS |}
     else ES.getMessageSentTo ph s).
Proof.
  cbv zeta. unfold exec. rewrite sendToAllContacts_eq. cbn [snd].
  destruct (attempts_frame e (ES.nd_message nd) (ES.nd_contacts nd) s)
    as (H1 & H2 & H3 & H4 & H5 & H6 & H7 & H8 & H9).
  destruct (attempts_messages e (ES.nd_message nd) (ES.nd_contacts nd) s ph) as [M1 M2].
  cbv zeta in *. repeat split; try done.
  unfold ES.getMessageSentTo. case_bool_decide; auto.
Qed.

Section Dispatch.

Lemma validateEmergencyContacts_eq cs :
  CS.validateEmergencyContacts cs =
    (if (CS.getContactCount cs =? 0)%nat then Throw NO_CONTACTS
     else if (0 <? length (invalid_contacts cs))%nat
          then Throw (InvalidContactsIncluded (map CS.phone (invalid_contacts cs)))
          else Return {| CS.isValid := true;
                         CS.contactCount := CS.getContactCount cs;
                         CS.validContacts :=
                           CS.getContactCount cs - length (invalid_contacts cs) |},
     cs).
Proof.
  unfold CS.validateEmergencyContacts, bind, get, CS.hasEmergencyContacts.
  fold (invalid_contacts cs).
  destruct (CS.getContactCount cs) as [|n]; [reflexivity|]. cbn.
  by destruct (invalid_contacts cs).
Qed.

Lemma sendEmergencyNotification_rejected e s err :
  eval CS.validateEmergencyContacts (ES._contactService s) = Throw err →
  ES.sendEmergencyNotification e s = (Throw err, rejected_state e s err).
Proof.
  intros H. destruct s as [ls cs hist sm id st]. cbn [ES._contactService] in H.
  unfold ES.sendEmergencyNotification, bind at 1. cbn.
  unfold try_catch, bind at 1, ES._validatePrerequisites, bind at 1, ES.on_contacts.
  cbn [ES._contactService]. unfold eval in H.
  pose proof (validateEmergencyContacts_eq cs) as E.
  destruct (CS.validateEmergencyContacts cs) as [r cs'].
  cbn [fst] in H. subst r. injection E as _ ->. reflexivity.
Qed.

Lemma includes_In a sub s :
  includes (String a sub) s = true → In a (list_ascii_of_string s).
Proof.
  induction s as [|b s IH]; [discriminate|]. cbn.
  intros [H|H]%orb_true_iff.
  - apply andb_true_iff in H as [H _]. apply Ascii.eqb_eq in H. auto.
  - auto.
Qed.

Lemma str_filter_nonempty f s :
  str_filter f s ≠ "" → ∃ c, In c (list_ascii_of_string s) ∧ f c = true.
Proof.
  induction s as [|c s IH]; [done|]. cbn. destruct (f c) eqn:E.
  - intros _. exists c. auto.
  - intros H. destruct (IH H) as (c' & Hin & Hc). exists c'. auto.
Qed.

Lemma str_forall_In f s c :
  str_forall f s = true → In c (list_ascii_of_string s) → f c = true.
Proof.
  induction s as [|b s IH]; [intros _ []|]. cbn.
  intros [H1 H2]%andb_true_iff [<-|Hin]; auto.
Qed.

(** A phone that passes the format check passes the check of the send. *)
Lemma valid_phone_sendable p :
  CS._isValidPhoneNumber p = true → ES._isInvalidPhoneNumber p = false.
Proof.
  intros Hv. destruct (valid_phone_shape p Hv) as [Hlen Hchars].
  assert (CS._normalizePhoneNumber p ≠ "") as Hne.
  { intros E. rewrite E in Hlen. cbn in Hlen. lia. }
  apply (str_filter_nonempty kept) in Hne as (c & Hin & Hc).
  unfold ES._isInvalidPhoneNumber. rewrite !orb_false_iff. split; [split|].
  - destruct p; [destruct Hin|reflexivity].
  - destruct (includes "INVALID" p) eqn:E; [|done].
    apply includes_In in E.
    pose proof (proj1 (str_forall_filter kept digit_or_plus p) Hchars "I"%char E eq_refl).
    discriminate.
  - destruct (trim_is_empty p) eqn:E; [|done].
    pose proof (str_forall_In is_space p c E Hin) as Hs.
    unfold kept in Hc. rewrite Hs in Hc. cbn in Hc. by rewrite orb_true_r in Hc.
Qed.

Lemma sendable_all cs :
  Forall (fun c => CS._isValidPhoneNumber (CS.phone c) = true) cs → sendable cs = cs.
Proof.
  induction 1 as [|c cs Hc _ IH]; [done|]. unfold sendable in *. cbn.
  by rewrite (valid_phone_sendable _ Hc), IH.
Qed.

Lemma invalid_contacts_nil cs :
  Forall (fun c => CS._isValidPhoneNumber (CS.phone c) = true) (CS._contactOrder cs) →
  invalid_contacts cs = [].
Proof.
  unfold invalid_contacts. induction 1 as [|c l Hc _ IH]; [done|]. cbn. by rewrite Hc.
Qed.

Lemma validatePrerequisites_ok s :
  registry_valid (ES._contactService s) →
  ES._validatePrerequisites (drawn s) = (Return tt, drawn s).
Proof.
  intros [Hcount Hvalid].
  unfold ES._validatePrerequisites, bind, ES.on_contacts. cbn [drawn ES._contactService].
  rewrite validateEmergencyContacts_eq.
  apply Nat.eqb_neq in Hcount. rewrite Hcount, (invalid_contacts_nil _ Hvalid).
  reflexivity.
Qed.

Lemma sendEmergencyNotification_fulfilled e s :
  registry_valid (ES._contactService s) →
  ES.sendEmergencyNotification e s =
    (Return (ES._buildSuccessResponse (data_of e s)
               (map (fun c => ES.fulfilled (attempt_value e c))
                    (CS.getEmergencyContacts (ES._contactService s)))),
     fulfilled_state e s).
Proof.
  intros Hv.
  cbv [ES.sendEmergencyNotification ES._generateNotificationId bind modify get ret
       try_catch].
  fold (drawn s). rewrite (validatePrerequisites_ok s Hv).
  cbv [ES._buildNotificationData bind get ret]. cbn [drawn ES._lastNotificationId
    ES._locationService ES._contactService].
  fold (message_of e s). fold (data_of e s).
  rewrite sendToAllContacts_eq.
  cbv [ES._recordNotificationResult ES.push_history ES.with_stats bind modify ret].
  reflexivity.
Qed.

Lemma all_fulfilled_counts e (l : list CS.contact) :
  length (List.filter ES.is_fulfilled
            (map (fun c => ES.fulfilled (attempt_value e c)) l)) = length l ∧
  length (List.filter (fun r => negb (ES.is_fulfilled r))
            (map (fun c => ES.fulfilled (attempt_value e c)) l)) = 0%nat.
Proof. induction l as [|c l [IH1 IH2]]; cbn; [done|]. by rewrite IH1, IH2. Qed.

End Dispatch.

(** X11.  When the registry is empty, [sendEmergencyNotification] rejects
    with the no-contacts error; when it is not empty but lists a contact
    whose phone fails the format check, it rejects with the error naming
    all such phones.  In both cases no message is built or sent: the sent
    messages, the statistics and the services are as before, one
    notification id is drawn and one failed entry is appended to the
    history. *)
Theorem X11_dispatch_rejected (e : ES.env) (s : ES.t) :
  (CS.getContactCount (ES._contactService s) = 0%nat →
   ES.sendEmergencyNotification e s = (Throw NO_CONTACTS, rejected_state e s NO_CONTACTS)) ∧
  (CS.getContactCount (ES._contactService s) ≠ 0%nat →
   invalid_contacts (ES._contactService s) ≠ [] →
   let err := InvalidContactsIncluded
                (map CS.phone (invalid_contacts (ES._contactService s))) in
   ES.sendEmergencyNotification e s = (Throw err, rejected_state e s err)).
Proof.
  split.
  - intros H. apply sendEmergencyNotification_rejected.
    unfold eval. rewrite validateEmergencyContacts_eq, H. reflexivity.
  - intros H Hbad err. apply sendEmergencyNotification_rejected.
    unfold eval. rewrite validateEmergencyContacts_eq.
    apply Nat.eqb_neq in H. rewrite H. cbn.
    destruct (invalid_contacts (ES._contactService s)); done.
Qed.

Lemma X11_dispatch_rejected_witness :
  eval (ES.sendEmergencyNotification sample_env) (ES.new LS.new CS.new) = Throw NO_CONTACTS ∧
  eval (ES.sendEmergencyNotification sample_env) (ES.new LS.new partial_failure_registry)
  = Throw (InvalidContactsIncluded ["090INVALIDNUMBER"]).
Proof.
  split.
  - unfold eval.
    rewrite (proj1 (X11_dispatch_rejected sample_env (ES.new LS.new CS.new)) eq_refl).
    reflexivity.
  - unfold eval.
    rewrite (proj2 (X11_dispatch_rejected sample_env (ES.new LS.new partial_failure_registry))
               ltac:(vm_compute; lia) ltac:(vm_compute; discriminate)).
    vm_compute. reflexivity.
Defined.

(** X12.  When the registry is not empty and every listed phone passes the
    format check, [sendEmergencyNotification] is fulfilled: the response
    reports every contact as sent to and successful and none as failed;
    every listed phone has the same message recorded, carrying the best
    available location and the time of the call; every other phone is as
    before; the statistics count one more notification and as many more
    successful sends as there are contacts; and the message is the last
    sent one. *)
Theorem X12_dispatch_fulfilled (e : ES.env) (s : ES.t) (ph : string) :
  registry_valid (ES._contactService s) →
  let contacts := CS.getEmergencyContacts (ES._contactService s) in
  let s' := exec (ES.sendEmergencyNotification e) s in
  eval (ES.sendEmergencyNotification e) s =
    Return {| ES.success := true; ES.notificationId := S (ES._lastNotificationId s);
              ES.sentTo := length contacts; ES.successful := length contacts;
              ES.failed := 0; ES.resp_timestamp := ES.t_call e |} ∧
  ES.getMessageSentTo ph s' =
    (if bool_decide (ph ∈ map CS.phone contacts)
     then Some {| ES.sent_message := message_of e s; ES.sentAt := ES.t_sent e;
                  ES.status := ES.SUCCESS |}
     else ES.getMessageSentTo ph s) ∧
  ES.getStatistics s' =
    {| ES.totalNotifications := S (ES.totalNotifications (ES._statistics s));
       ES.successfulSends :=
         (ES.successfulSends (ES._statistics s) + length contacts)%nat;
       ES.failedSends := ES.failedSends (ES._statistics s);
       ES.lastNotificationTime := Some (ES.t_sent e) |} ∧
  ES.getLastSentMessage s' = ES.LastMessage (message_of e s) ∧
  length (ES.getNotificationHistory s') = S (length (ES.getNotificationHistory s)).
Proof.
  intros Hv contacts s'. subst contacts s'.
  unfold eval, exec. rewrite (sendEmergencyNotification_fulfilled e s Hv). cbn [fst snd].
  destruct Hv as [_ Hvalid].
  destruct (attempts_frame e (message_of e s)
              (CS.getEmergencyContacts (ES._contactService s)) (drawn s))
    as (H1 & H2 & H3 & H4 & H5 & H6 & H7 & H8 & H9).
  destruct (attempts_messages e (message_of e s)
              (CS.getEmergencyContacts (ES._contactService s)) (drawn s) ph) as [M1 M2].
  cbv zeta in *. unfold CS.getEmergencyContacts in *.
  rewrite (sendable_all _ Hvalid) in *.
  unfold ES.getMessageSentTo, ES.getStatistics, ES.getLastSentMessage,
    ES.getNotificationHistory, fulfilled_state, CS.getEmergencyContacts.
  cbn [ES._sentMessages ES._statistics ES._notificationHistory].
  rewrite H3, H5, H7, H8, Nat.sub_diag, Nat.add_0_r, last_snoc, length_app.
  cbn [drawn ES._statistics ES._notificationHistory ES._sentMessages length data_of
       ES.nd_message] in *.
  split.
  { f_equal. unfold ES._buildSuccessResponse, data_of, CS.getEmergencyContacts.
    cbn [ES.nd_contacts ES.nd_id ES.nd_timestamp].
    by destruct (all_fulfilled_counts e (CS._contactOrder (ES._contactService s)))
      as [-> ->]. }
  split; [case_bool_decide; auto|].
  split; [reflexivity|]. split; [reflexivity|lia].
Qed.

Lemma X12_dispatch_fulfilled_witness :
  let cs := exec (CS.addEmergencyContact 0 hyphenated_contact) CS.new in
  let s := ES.new cache_with_fix cs in
  ES.getMessageSentTo "09012345678" (exec (ES.sendEmergencyNotification sample_env) s)
  = Some {| ES.sent_message := message_of sample_env s; ES.sentAt := 110;
            ES.status := ES.SUCCESS |}.
Proof.
  intros cs s.
  assert (registry_valid (ES._contactService s)) as Hv.
  { split; [vm_compute; lia|]. repeat constructor. }
  destruct (X12_dispatch_fulfilled sample_env s "09012345678" Hv) as (_ & H & _).
  rewrite H. reflexivity.
Defined.

Section PowerButtonRuns.

Lemma triggered_dec (st : PB.States) : {st = PB.TRIGGERED} + {st ≠ PB.TRIGGERED}.
Proof. destruct st; [right|right|left]; congruence. Qed.

Lemma clear_own (x : Timers.timer PB.callback) n :
  Timers.clearTimeout (Timers.id x) {| Timers.pending := [x]; Timers.next_id := n |}
  = {| Timers.pending := []; Timers.next_id := n |}.
Proof. unfold Timers.clearTimeout. cbn. by rewrite Nat.eqb_refl. Qed.

Lemma press_inv mid w : pb_inv w → pb_inv (PB.press mid w).
Proof.
  intros Hinv. destruct (triggered_dec (PB._state (PB.svc w))) as [E|N].
  { by rewrite press_when_triggered. }
  rewrite (press_step mid w N). cbv zeta. unfold pb_inv in *.
  destruct w as [[n tmo st] es [pend nid] c]. unfold cleared. cbn in *.
  destruct st; [| |congruence].
  - destruct Hinv as (-> & -> & ->). cbn. split; [lia|].
    eexists. split; [|reflexivity]. reflexivity.
  - destruct Hinv as (Hn & x & -> & ->). rewrite clear_own.
    destruct (Nat.eqb_spec n 2) as [->|Hne]; cbn; [done|].
    assert (n = 1%nat) as -> by lia. cbn. split; [lia|].
    eexists. split; [|reflexivity]. reflexivity.
Qed.

Lemma reset_eq w :
  exec PB.reset w =
    {| PB.svc := {| PB._pressCount := 0; PB._pressTimeout := None; PB._state := PB.IDLE |};
       PB.emergency := PB.emergency w; PB.timers := cleared w; PB.clock := PB.clock w |}.
Proof.
  destruct w as [[n tmo st] es tb c]. unfold cleared. cbn.
  unfold exec, PB.reset, PB._resetToIdle, PB._clearExistingTimeout, PB.set_svc, bind,
    get, modify. cbn. by destruct tmo.
Qed.

Lemma reset_inv w : pb_inv w → pb_inv (exec PB.reset w).
Proof.
  intros Hinv. rewrite reset_eq. unfold pb_inv, cleared in *.
  destruct w as [[n tmo st] es [pend nid] c]. cbn in *.
  destruct st.
  - by destruct Hinv as (_ & -> & ->).
  - destruct Hinv as (_ & x & -> & ->). by rewrite clear_own.
  - by destruct Hinv as (_ & -> & ->).
Qed.

(** Time passing in a state of that shape: nothing fires, or the one
    pending timeout fires and the service is idle again. *)
Lemma advance_cases d w :
  pb_inv w →
  PB.advance d w = PB.set_clock (Z.max (PB.clock w) (PB.clock w + d)) w ∨
  (PB._state (PB.svc w) = PB.COUNTING ∧
   ∃ x, Timers.pending (PB.timers w) = [x] ∧ (Timers.due x <= PB.clock w + d)%Z ∧
        PB.advance d w =
          {| PB.svc := {| PB._pressCount := 0; PB._pressTimeout := None;
                          PB._state := PB.IDLE |};
             PB.emergency := PB.emergency w;
             PB.timers := {| Timers.pending := [];
                             Timers.next_id := Timers.next_id (PB.timers w) |};
             PB.clock := Z.max (Z.max (PB.clock w) (Timers.due x)) (PB.clock w + d) |}).
Proof.
  intros Hinv. unfold pb_inv in Hinv.
  destruct w as [[n tmo st] es [pend nid] c]. cbn in *.
  assert (pend = [] → PB.advance d {| PB.svc := {| PB._pressCount := n; PB._pressTimeout := tmo;
                                     PB._state := st |};
                          PB.emergency := es;
                          PB.timers := {| Timers.pending := pend; Timers.next_id := nid |};
                          PB.clock := c |}
                      = PB.set_clock (Z.max c (c + d))
                          {| PB.svc := {| PB._pressCount := n; PB._pressTimeout := tmo;
                                          PB._state := st |};
                             PB.emergency := es;
                             PB.timers := {| Timers.pending := pend; Timers.next_id := nid |};
                             PB.clock := c |}) as Hnil.
  { intros ->. reflexivity. }
  destruct st.
  - left. apply Hnil. by destruct Hinv as (_ & _ & ->).
  - destruct Hinv as (_ & x & -> & ->).
    unfold PB.advance, Timers.advance. cbn [length PB.timers Timers.pending PB.clock
      Timers.run_due]. unfold Timers.next_due. cbn [List.filter PB.timers Timers.pending].
    destruct (Z.leb_spec (Timers.due x) (c + d)) as [Hle|Hgt].
    + right. split; [done|]. exists x. split; [done|]. split; [done|].
      cbn [Timers.first_min]. unfold Timers.fire, PB.run_callback.
      destruct (Timers.action x). cbn [PB.timers PB.set_timers]. rewrite clear_own.
      unfold exec, PB._resetToIdle, PB._clearExistingTimeout, PB.set_svc, bind, get,
        modify. cbn. unfold Timers.clearTimeout. cbn. reflexivity.
    + left. reflexivity.
  - left. apply Hnil. by destruct Hinv as (_ & _ & ->).
Qed.

Lemma advance_inv d w : pb_inv w → pb_inv (PB.advance d w).
Proof.
  intros Hinv. destruct (advance_cases d w Hinv) as [->|(_ & x & _ & _ & ->)]; [|done].
  by destruct w.
Qed.

Lemma advance_emergency d w : pb_inv w → PB.emergency (PB.advance d w) = PB.emergency w.
Proof.
  intros Hinv. by destruct (advance_cases d w Hinv) as [->|(_ & x & _ & _ & ->)].
Qed.

Lemma step_inv w ev : pb_inv w → pb_inv (pb_step w ev).
Proof.
  destruct ev; cbn; [apply press_inv|apply advance_inv|apply reset_inv].
Qed.

End PowerButtonRuns.

(** X13.  Whatever presses, waits and resets happen to a new service, its
    state keeps this shape: IDLE with count 0 and no timeout pending,
    COUNTING with count 1 or 2 and exactly one timeout pending, the one
    whose handle is stored, or TRIGGERED with count 3 and no timeout
    pending. *)
Theorem X13_power_button_invariant (es : ES.t) (now : Z) (evs : list pb_event) :
  pb_inv (pb_run evs (PB.init es now)).
Proof.
  unfold pb_run. assert (pb_inv (PB.init es now)) as H by (by cbn).
  revert H. generalize (PB.init es now) as w.
  induction evs as [|ev evs IH]; intros w Hw; [done|]. cbn. by apply IH, step_inv.
Qed.

(** X14.  Without a reset the service dispatches at most once: after any
    presses and waits the emergency service has drawn one notification id
    if the state is TRIGGERED and none otherwise. *)
Theorem X14_power_button_one_shot (es : ES.t) (now : Z) (evs : list pb_event) :
  forallb (fun ev => negb (is_reset ev)) evs = true →
  let w := pb_run evs (PB.init es now) in
  ES._lastNotificationId (PB.emergency w) =
    if PB.is_triggered (PB.getCurrentState w)
    then S (ES._lastNotificationId es) else ES._lastNotificationId es.
Proof.
  intros Hev. cbv zeta. unfold pb_run.
  assert (pb_inv (PB.init es now) ∧
          ES._lastNotificationId (PB.emergency (PB.init es now)) =
            if PB.is_triggered (PB.getCurrentState (PB.init es now))
            then S (ES._lastNotificationId es) else ES._lastNotificationId es) as H
    by (by cbn).
  revert H. generalize (PB.init es now) as w.
  induction evs as [|ev evs IH]; intros w [Hinv Hid]; [done|].
  cbn in Hev. apply andb_true_iff in Hev as [Hev1 Hev2]. cbn [fold_left].
  apply (IH Hev2). split; [by apply step_inv|].
  destruct ev as [mid|d|]; [| |discriminate]; cbn [pb_step].
  - destruct (triggered_dec (PB._state (PB.svc w))) as [E|N].
    { by rewrite press_when_triggered. }
    unfold PB.getCurrentState in *. rewrite (press_step mid w N). cbv zeta.
    destruct (PB._state (PB.svc w)) eqn:Est; [| |congruence]; cbn in Hid.
    + unfold pb_inv in Hinv. rewrite Est in Hinv. destruct Hinv as (-> & _). by cbn.
    + unfold pb_inv in Hinv. rewrite Est in Hinv. destruct Hinv as (Hn & _).
      destruct (Nat.eqb_spec (S (PB._pressCount (PB.svc w))) PB.REQUIRED_PRESS_COUNT).
      * cbn. by rewrite sendEmergencyNotification_draws_one_id, Hid.
      * destruct (S (PB._pressCount (PB.svc w)) <? PB.REQUIRED_PRESS_COUNT)%nat; by cbn.
  - rewrite (advance_emergency d w Hinv), Hid. unfold PB.getCurrentState.
    destruct (advance_cases d w Hinv) as [->|(Est & x & _ & _ & ->)]; [by destruct w|].
    by rewrite Est.
Qed.

Lemma X14_power_button_one_shot_witness :
  let w := pb_run [PbPress "a"; PbPress "b"; PbPress "c"; PbPress "d"; PbWait 5000;
                   PbPress "e"]
             (PB.init (ES.new LS.new partial_failure_registry) 0) in
  ES._lastNotificationId (PB.emergency w) = 1%nat.
Proof.
  intros w.
  pose proof (X14_power_button_one_shot (ES.new LS.new partial_failure_registry) 0
                [PbPress "a"; PbPress "b"; PbPress "c"; PbPress "d"; PbWait 5000;
                 PbPress "e"] eq_refl) as H.
  cbv zeta in H. etransitivity; [exact H|]. vm_compute. reflexivity.
Defined.

Section PowerButtonGaps.

Lemma clear_handle h t (a : PB.callback) n :
  Timers.clearTimeout h
    {| Timers.pending := [{| Timers.id := h; Timers.due := t; Timers.action := a |}];
       Timers.next_id := n |}
  = {| Timers.pending := []; Timers.next_id := n |}.
Proof. unfold Timers.clearTimeout. cbn. by rewrite Nat.eqb_refl. Qed.

Lemma press_idle mid es nid c :
  PB.press mid (pb_idle_world es nid c) = pb_counting_world 1 es nid c c.
Proof. rewrite press_step by (cbn; congruence). reflexivity. Qed.

Lemma press_counting_1 mid es h c0 c :
  PB.press mid (pb_counting_world 1 es h c0 c) = pb_counting_world 2 es (S h) c c.
Proof.
  rewrite press_step by (cbn; congruence). cbv zeta. unfold cleared.
  cbn [pb_counting_world PB.svc PB._pressTimeout PB.timers PB._pressCount].
  rewrite clear_handle.
  reflexivity.
Qed.

Lemma press_counting_2 mid es h c0 c :
  let w := pb_counting_world 2 es h c0 c in
  PB.press mid w =
    {| PB.svc := {| PB._pressCount := 3; PB._pressTimeout := None;
                    PB._state := PB.TRIGGERED |};
       PB.emergency := exec (ES.sendEmergencyNotification (press_env mid w)) es;
       PB.timers := {| Timers.pending := []; Timers.next_id := S h |};
       PB.clock := c |}.
Proof.
  cbv zeta. rewrite press_step by (cbn; congruence). cbv zeta. unfold cleared.
  cbn [pb_counting_world PB.svc PB._pressTimeout PB.timers PB._pressCount].
  rewrite clear_handle.
  reflexivity.
Qed.

Lemma advance_idle d es nid c :
  PB.advance d (pb_idle_world es nid c) = pb_idle_world es nid (Z.max c (c + d)).
Proof. reflexivity. Qed.

Lemma advance_counting d k es h c0 c :
  PB.advance d (pb_counting_world k es h c0 c) =
    if (c0 + PB.PRESS_TIMEOUT_MS <=? c + d)%Z
    then pb_idle_world es (S h) (Z.max (Z.max c (c0 + PB.PRESS_TIMEOUT_MS)) (c + d))
    else pb_counting_world k es h c0 (Z.max c (c + d)).
Proof.
  unfold PB.advance, Timers.advance, pb_counting_world.
  cbn [length PB.timers Timers.pending PB.clock Timers.run_due].
  unfold Timers.next_due. cbn [List.filter PB.timers Timers.pending Timers.due].
  destruct (c0 + PB.PRESS_TIMEOUT_MS <=? c + d)%Z; [|reflexivity].
  cbn [Timers.first_min]. unfold Timers.fire, PB.run_callback.
  cbn [Timers.action PB.timers PB.set_timers Timers.id].
  rewrite clear_handle.
  unfold exec, PB._resetToIdle, PB._clearExistingTimeout, PB.set_svc, bind, get, modify.
  cbn. unfold Timers.clearTimeout. cbn. reflexivity.
Qed.

Lemma idle_world_eq w :
  pb_inv w → PB.getCurrentState w = PB.IDLE →
  w = pb_idle_world (PB.emergency w) (Timers.next_id (PB.timers w)) (PB.clock w).
Proof.
  unfold pb_inv, PB.getCurrentState. destruct w as [[n tmo st] es [pend nid] c]. cbn.
  intros H ->. by destruct H as (-> & -> & ->).
Qed.

End PowerButtonGaps.

(** X15.  The press timeout is re-armed by every press.  From the idle
    service, three presses trigger exactly when each of the two later ones
    comes less than 3000 ms after the one before it; when a gap is 3000 ms
    or more the count starts again, nothing is dispatched, and after the
    third press the service is COUNTING with count 2 (the second gap is
    short) or 1 (the second gap is long). *)
Theorem X15_power_button_gaps (m1 m2 m3 : string) (d1 d2 : Z) (w : PB.world) :
  pb_inv w → PB.getCurrentState w = PB.IDLE → (0 <= d1)%Z → (0 <= d2)%Z →
  let w3 := PB.press m3 (PB.advance d2 (PB.press m2 (PB.advance d1 (PB.press m1 w)))) in
  ((d1 < PB.PRESS_TIMEOUT_MS)%Z → (d2 < PB.PRESS_TIMEOUT_MS)%Z →
   PB.getCurrentState w3 = PB.TRIGGERED ∧
   ES._lastNotificationId (PB.emergency w3) = S (ES._lastNotificationId (PB.emergency w))) ∧
  ((PB.PRESS_TIMEOUT_MS <= d1)%Z ∨ (PB.PRESS_TIMEOUT_MS <= d2)%Z →
   PB.getCurrentState w3 = PB.COUNTING ∧
   PB.getPressCount w3 = (if (d2 <? PB.PRESS_TIMEOUT_MS)%Z then 2 else 1)%nat ∧
   PB.emergency w3 = PB.emergency w).
Proof.
  intros Hinv Hidle Hd1 Hd2 w3. subst w3.
  rewrite (idle_world_eq w Hinv Hidle).
  generalize (PB.emergency w) (Timers.next_id (PB.timers w)) (PB.clock w).
  intros es nid c. cbn [pb_idle_world PB.emergency].
  change {| PB.svc := {| PB._pressCount := 0; PB._pressTimeout := None;
                         PB._state := PB.IDLE |};
            PB.emergency := es;
            PB.timers := {| Timers.pending := []; Timers.next_id := nid |};
            PB.clock := c |} with (pb_idle_world es nid c).
  rewrite press_idle, advance_counting.
  unfold PB.PRESS_TIMEOUT_MS in *.
  destruct (Z.leb_spec (c + 3000) (c + d1)) as [L1|L1].
  - rewrite press_idle, advance_counting. unfold PB.PRESS_TIMEOUT_MS.
    set (c1 := Z.max (Z.max c (c + 3000)) (c + d1)).
    destruct (Z.leb_spec (c1 + 3000) (c1 + d2)) as [L2|L2].
    + rewrite press_idle. split; [intros; lia|]. intros _.
      destruct (Z.ltb_spec d2 3000); [lia|]. done.
    + rewrite press_counting_1. split; [intros; lia|]. intros _.
      destruct (Z.ltb_spec d2 3000); [|lia]. done.
  - rewrite press_counting_1, advance_counting. unfold PB.PRESS_TIMEOUT_MS.
    set (c1 := Z.max c (c + d1)).
    destruct (Z.leb_spec (c1 + 3000) (c1 + d2)) as [L2|L2].
    + rewrite press_idle. split; [intros; lia|]. intros _.
      destruct (Z.ltb_spec d2 3000); [lia|]. done.
    + rewrite press_counting_2. split; [|intros [?|?]; lia]. intros _ _.
      split; [done|]. cbn. apply sendEmergencyNotification_draws_one_id.
Qed.

Lemma X15_power_button_gaps_witness :
  let w0 := PB.init (ES.new LS.new partial_failure_registry) 0 in
  PB.getCurrentState
    (PB.press "c" (PB.advance 2500 (PB.press "b" (PB.advance 2500 (PB.press "a" w0)))))
  = PB.TRIGGERED ∧
  PB.getPressCount
    (PB.press "c" (PB.advance 100 (PB.press "b" (PB.advance 5000 (PB.press "a" w0)))))
  = 2%nat.
Proof.
  intros w0.
  assert (pb_inv w0) as Hinv by (by cbn).
  split.
  - destruct (X15_power_button_gaps "a" "b" "c" 2500 2500 w0 Hinv eq_refl
                ltac:(lia) ltac:(lia)) as [H _].
    apply H; unfold PB.PRESS_TIMEOUT_MS; lia.
  - destruct (X15_power_button_gaps "a" "b" "c" 5000 100 w0 Hinv eq_refl
                ltac:(lia) ltac:(lia)) as [_ H].
    destruct H as (_ & H & _); [left; unfold PB.PRESS_TIMEOUT_MS; lia|].
    exact H.
Defined.

Section CoreFacts.

Import EC.

Lemma last_filter_snoc {A} (f : A → bool) (l : list A) (x : A) :
  f x = true → last (List.filter f (l ++ [x])) = Some x.
Proof.
  intros Hx. rewrite List.filter_app. cbn. rewrite Hx. apply last_snoc.
Qed.

Lemma recorded_last b w :
  last (buttonPresses (state (recorded b w)))
  = Some {| press_button := b; press_timestamp := clock w |}.
Proof.
  unfold recorded. cbn [state buttonPresses]. apply last_filter_snoc.
  cbn. apply Z.ltb_lt. lia.
Qed.

Lemma initiateSOS_presses w :
  buttonPresses (state (initiateSOS w)) = buttonPresses (state w) ∧
  st_buttonConfig (state (initiateSOS w)) = st_buttonConfig (state w).
Proof. by rewrite initiateSOS_eq. Qed.

Lemma handle_presses b w :
  buttonPresses (state (handleVolumeButtonPress b w))
  = buttonPresses (state (recorded b w)).
Proof.
  rewrite handleVolumeButtonPress_eq.
  destruct (MisFirePreventionService.isValidSOS _); [|done].
  apply initiateSOS_presses.
Qed.

Lemma calculateIntervals_cons a b ts :
  Utils.calculateIntervals (a :: b :: ts) = (b - a) :: Utils.calculateIntervals (b :: ts).
Proof. reflexivity. Qed.

Lemma last_cons_default (x : Z) (l : list Z) (d d' : Z) :
  List.last (x :: l) d = List.last (x :: l) d'.
Proof.
  revert x. induction l as [|y l IH]; intros x; [reflexivity|].
  change (List.last (y :: l) d = List.last (y :: l) d'). apply IH.
Qed.

End CoreFacts.

(** X16.  [SOSService.trigger] never throws and arms no timer.  Without
    contacts it reports the no-contacts failure, with contacts but a falsy
    network status the network failure, and in both cases the state is as
    before; otherwise it reports success with the registered contacts,
    sets [sent], stamps the time of the call, and leaves [initiated] and
    the UI state as they were. *)
Theorem X16_trigger_outcome (w : EC.world) :
  let w' := exec EC.SOSService.trigger w in
  EC.timers w' = EC.timers w ∧
  (EC.EmergencyContactManager.hasContacts (EC.state w) = false →
   eval EC.SOSService.trigger w = Return (EC.SOSService.Failure EC.NO_EMERGENCY_CONTACTS) ∧
   EC.state w' = EC.state w) ∧
  (EC.EmergencyContactManager.hasContacts (EC.state w) = true →
   truthy (EC.networkStatus (EC.state w)) = false →
   eval EC.SOSService.trigger w = Return (EC.SOSService.Failure EC.NETWORK_DISCONNECTED) ∧
   EC.state w' = EC.state w) ∧
  (EC.EmergencyContactManager.hasContacts (EC.state w) = true →
   truthy (EC.networkStatus (EC.state w)) = true →
   eval EC.SOSService.trigger w
     = Return (EC.SOSService.Success (EC.emergencyContacts (EC.state w))
                 (String.eqb (EC.appState (EC.state w)) "background")) ∧
   EC.sent (EC.SystemStateManager.getSOSState w') = true ∧
   EC.timestamp (EC.SystemStateManager.getSOSState w') = Some (EC.clock w) ∧
   EC.initiated (EC.SystemStateManager.getSOSState w')
     = EC.initiated (EC.SystemStateManager.getSOSState w) ∧
   EC.SystemStateManager.getUIState w' = EC.SystemStateManager.getUIState w).
Proof.
  cbv zeta. unfold eval, exec. rewrite trigger_eq. cbv zeta.
  split; [|split; [|split]].
  - destruct (negb (EC.EmergencyContactManager.hasContacts _)); [done|].
    by destruct (negb (truthy _)).
  - intros ->. done.
  - intros -> ->. done.
  - intros -> ->. done.
Qed.

Lemma X16_trigger_outcome_witness :
  eval EC.SOSService.trigger (EC.init 0)
  = Return (EC.SOSService.Failure EC.NO_EMERGENCY_CONTACTS) ∧
  EC.sent (EC.SystemStateManager.getSOSState (exec EC.SOSService.trigger world_with_contact))
  = true.
Proof.
  split.
  - apply (proj1 (proj2 (X16_trigger_outcome (EC.init 0)))). reflexivity.
  - apply (proj2 (proj2 (proj2 (X16_trigger_outcome world_with_contact)))); reflexivity.
Defined.

(** X17.  The contact list of the core only ever holds valid contacts:
    [setContacts] stores a list exactly when every element is valid,
    [addContact] appends a contact exactly when it is valid, a rejected
    call throws and changes nothing, and validity of the stored list is
    kept by both and by [clearAll]. *)
Theorem X17_core_contacts_valid (cs : list jsval) (c : jsval) (w : EC.world) :
  EC.EmergencyContactManager.setContacts cs w =
    (if forallb EC.Validators.isValidContact cs
     then (Return true, with_contacts cs w) else (Throw InvalidContactError, w)) ∧
  EC.EmergencyContactManager.addContact c w =
    (if EC.Validators.isValidContact c
     then (Return true, with_contacts (EC.emergencyContacts (EC.state w) ++ [c])%list w)
     else (Throw InvalidContactError, w)) ∧
  contacts_valid (exec EC.EmergencyContactManager.clearAll w) ∧
  (contacts_valid w →
   contacts_valid (exec (EC.EmergencyContactManager.setContacts cs) w) ∧
   contacts_valid (exec (EC.EmergencyContactManager.addContact c) w)).
Proof.
  assert (EC.EmergencyContactManager.setContacts cs w =
            (if forallb EC.Validators.isValidContact cs
             then (Return true, with_contacts cs w) else (Throw InvalidContactError, w))) as E1.
  { unfold EC.EmergencyContactManager.setContacts.
    destruct (forallb EC.Validators.isValidContact cs); reflexivity. }
  assert (EC.EmergencyContactManager.addContact c w =
            (if EC.Validators.isValidContact c
             then (Return true,
                   with_contacts (EC.emergencyContacts (EC.state w) ++ [c])%list w)
             else (Throw InvalidContactError, w))) as E2.
  { unfold EC.EmergencyContactManager.addContact.
    destruct (EC.Validators.isValidContact c); reflexivity. }
  split; [exact E1|]. split; [exact E2|]. split; [reflexivity|].
  intros Hv. unfold exec. rewrite E1, E2. split.
  - destruct (forallb EC.Validators.isValidContact cs) eqn:E; [exact E|exact Hv].
  - destruct (EC.Validators.isValidContact c) eqn:E; [|exact Hv].
    unfold contacts_valid, with_contacts. cbn. rewrite forallb_app. cbn.
    unfold contacts_valid in Hv. by rewrite Hv, E.
Qed.

Lemma X17_core_contacts_valid_witness :
  contacts_valid world_with_contact.
Proof.
  destruct (X17_core_contacts_valid [] core_contact (EC.init 0)) as (_ & _ & _ & H).
  apply (H eq_refl).
Defined.

(** X18.  After a press event handled at clock [t], the press just made is
    the last recorded one, every recorded press is younger than ten
    seconds (timestamp above [t - 10000]), and every recorded press is the
    new one or was recorded before. *)
Theorem X18_press_retention (b : string) (w : EC.world) :
  let w' := EC.handleVolumeButtonPress b w in
  let new := {| EC.press_button := b; EC.press_timestamp := EC.clock w |} in
  last (EC.buttonPresses (EC.state w')) = Some new ∧
  Forall (fun p => (EC.clock w - 10000 < EC.press_timestamp p)%Z)
         (EC.buttonPresses (EC.state w')) ∧
  (∀ p, In p (EC.buttonPresses (EC.state w')) →
        p = new ∨ In p (EC.buttonPresses (EC.state w))).
Proof.
  cbv zeta. rewrite handle_presses. split; [apply recorded_last|].
  unfold recorded. cbn [EC.state EC.buttonPresses]. split.
  - apply Forall_forall. intros p Hp%list_elem_of_In.
    apply filter_In in Hp as [_ Hp]. by apply Z.ltb_lt.
  - intros p [Hp _]%filter_In. apply in_app_or in Hp as [Hp|[<-|[]]]; auto.
Qed.

(** X19.  [cancel] is idempotent, and when no countdown is running
    (nothing initiated, cancel button hidden, no handle stored) it changes
    nothing at all. *)
Theorem X19_cancel_idempotent (w : EC.world) :
  EC.cancelSOS (EC.cancelSOS w) = EC.cancelSOS w ∧
  (countdown_idle w → EC.cancelSOS w = w).
Proof.
  split.
  - rewrite !cancelSOS_eq. reflexivity.
  - intros (Hi & Hu & Hc). rewrite cancelSOS_eq.
    destruct w as [[cfg cs app net [i sn ts eo cr] ui ps cb h] tb c tr]. cbn in *.
    by subst.
Qed.

Lemma X19_cancel_idempotent_witness : EC.cancelSOS world_with_contact = world_with_contact.
Proof.
  apply (proj2 (X19_cancel_idempotent world_with_contact)). repeat split.
Defined.

(** X20.  A press of another button than the configured one, or any press
    while no button is configured, only records the press: no countdown is
    started, so the timers, the SOS state, the UI state and the trace are
    as before. *)
Theorem X20_other_button_inert (b : string) (w : EC.world) :
  (EC.st_buttonConfig (EC.state w) = None ∨
   ∃ cfg, EC.st_buttonConfig (EC.state w) = Some cfg ∧ b ≠ EC.button cfg) →
  EC.handleVolumeButtonPress b w = recorded b w.
Proof.
  intros H. rewrite handleVolumeButtonPress_eq.
  unfold EC.MisFirePreventionService.validateButtonSequence.
  rewrite recorded_last. cbn [recorded EC.state EC.st_buttonConfig EC.press_button].
  destruct H as [->|(cfg & -> & Hne)]; [reflexivity|].
  apply String.eqb_neq in Hne. by rewrite Hne.
Qed.

Lemma X20_other_button_inert_witness :
  EC.timers (EC.handleVolumeButtonPress "power" world_configured)
  = EC.timers world_configured.
Proof.
  rewrite (X20_other_button_inert "power" world_configured); [reflexivity|].
  right. eexists. split; [reflexivity|]. vm_compute. discriminate.
Defined.

(** X21.  [calculateIntervals] returns one interval less than there are
    timestamps (none for fewer than two), and the intervals add up to the
    last timestamp minus the first. *)
Theorem X21_intervals_telescope (a : Z) (ts : list Z) :
  length (EC.Utils.calculateIntervals (a :: ts)) = length ts ∧
  EC.Utils.calculateIntervals [] = [] ∧
  fold_right Z.add 0%Z (EC.Utils.calculateIntervals (a :: ts)) = (List.last ts a - a)%Z.
Proof.
  split; [|split; [reflexivity|]].
  - revert a. induction ts as [|b ts IH]; intros a; [reflexivity|].
    rewrite calculateIntervals_cons. cbn [length]. by rewrite IH.
  - revert a. induction ts as [|b ts IH]; intros a; [cbn; lia|].
    rewrite calculateIntervals_cons. cbn [fold_right]. rewrite IH.
    destruct ts as [|c ts]; [cbn; lia|].
    change (List.last (b :: c :: ts) a) with (List.last (c :: ts) a).
    rewrite (last_cons_default c ts a b). lia.
Qed.

Lemma trigger_sent w :
  EC.sent (EC.st_sosState (EC.state (exec EC.SOSService.trigger w))) =
    EC.sent (EC.st_sosState (EC.state w))
    || (EC.EmergencyContactManager.hasContacts (EC.state w)
        && truthy (EC.networkStatus (EC.state w))).
Proof.
  unfold exec. rewrite trigger_eq. cbv zeta.
  destruct (EC.EmergencyContactManager.hasContacts (EC.state w)); cbn;
    [|by rewrite orb_false_r].
  destruct (truthy (EC.networkStatus (EC.state w))); cbn;
    [by rewrite orb_true_r|by rewrite orb_false_r].
Qed.

(** X22.  The dispatch preconditions are read when the countdown fires,
    not when it starts: if the network status is set to [v] during the
    countdown (no other timer pending), then after 3000 ms or more
    [SOSService.trigger] has been called exactly once, and [sent] is then
    true exactly if it was before or there are contacts and [v] is
    truthy. *)
Theorem X22_preconditions_at_fire (v : jsval) (d : Z) (w : EC.world) :
  Timers.pending (EC.timers w) = [] →
  (EC.CONSTANTS.COUNTDOWN_DURATION <= d)%Z →
  let w' := EC.advance d (exec (EC.SystemStateManager.setNetworkStatus v)
                               (EC.initiateSOS w)) in
  EC.trigger_calls w' = S (EC.trigger_calls w) ∧
  EC.sent (EC.SystemStateManager.getSOSState w') =
    (EC.sent (EC.SystemStateManager.getSOSState w) ||
     (EC.EmergencyContactManager.hasContacts (EC.state w) && truthy v)).
Proof.
  intros Hp Hd. cbv zeta.
  set (s1 := initiated_state (EC.state w) (Timers.next_id (EC.timers w))).
  assert (exec (EC.SystemStateManager.setNetworkStatus v) (EC.initiateSOS w) =
          {| EC.state :=
               {| EC.st_buttonConfig := EC.st_buttonConfig s1;
                  EC.emergencyContacts := EC.emergencyContacts s1;
                  EC.appState := EC.appState s1; EC.networkStatus := v;
                  EC.st_sosState := EC.st_sosState s1; EC.st_uiState := EC.st_uiState s1;
                  EC.buttonPresses := EC.buttonPresses s1;
                  EC.onSOSTriggered := EC.onSOSTriggered s1;
                  EC.countdownTimer := EC.countdownTimer s1 |};
             EC.timers :=
               {| Timers.pending :=
                    [countdown_timer (Timers.next_id (EC.timers w)) (EC.clock w)];
                  Timers.next_id := S (Timers.next_id (EC.timers w)) |};
             EC.clock := EC.clock w; EC.trace := EC.trace w |}) as E1.
  { rewrite initiateSOS_eq, Hp. reflexivity. }
  rewrite E1.
  rewrite (advance_single d _ (countdown_timer (Timers.next_id (EC.timers w)) (EC.clock w)));
    [|reflexivity|cbn; unfold EC.CONSTANTS.COUNTDOWN_DURATION in *; lia].
  cbv zeta. unfold Timers.fire, EC.run_callback.
  cbn [Timers.action countdown_timer Timers.id Timers.due].
  rewrite countdown_callback_eq.
  cbn [EC.state EC.set_clock EC.set_timers EC.st_sosState initiated_state EC.initiated s1].
  match goal with
  | |- context [exec EC.SOSService.trigger ?w0] =>
      pose proof (trigger_calls_trigger w0) as (_ & _ & Hn);
      pose proof (trigger_eq w0) as He
  end.
  cbv zeta in Hn. split.
  - unfold EC.trigger_calls in *. cbn [EC.set_clock EC.trace]. rewrite Hn. reflexivity.
  - clear He Hn.
    unfold EC.SystemStateManager.getSOSState, EC.set_clock. cbn [EC.state].
    rewrite trigger_sent.
    unfold EC.set_timers, EC.EmergencyContactManager.hasContacts, s1.
    cbn [EC.state EC.networkStatus EC.emergencyContacts EC.st_sosState EC.sent
         initiated_state].
    reflexivity.
Qed.

Lemma X22_preconditions_at_fire_witness :
  EC.sent (EC.SystemStateManager.getSOSState
             (EC.advance 3000 (exec (EC.SystemStateManager.setNetworkStatus (JBool false))
                                    (EC.initiateSOS world_with_contact)))) = false.
Proof.
  destruct (X22_preconditions_at_fire (JBool false) 3000 world_with_contact eq_refl) as [_ H].
  { unfold EC.CONSTANTS.COUNTDOWN_DURATION. lia. }
  etransitivity; [exact H|]. reflexivity.
Defined.

(** X23.  [reset()] of the emergency service gives the service as newly
    constructed over fresh location and contact services, whatever was
    sent before.  A notification sent next is rejected for want of
    contacts, is numbered 1, is the only history entry, and is not
    counted as a notification. *)
Theorem X23_reset_then_dispatch (e : ES.env) (s : ES.t) :
  let s0 := exec ES.reset s in
  let s1 := exec (ES.sendEmergencyNotification e) s0 in
  s0 = ES.new LS.new CS.new ∧
  eval (ES.sendEmergencyNotification e) s0 = Throw NO_CONTACTS ∧
  ES.getNotificationHistory s1 = [ES.Failed 1 NO_CONTACTS (ES.t_call e)] ∧
  ES.getNotificationCount s1 = 0%nat ∧
  ES.isNotificationSent s1 = false.
Proof.
  cbv zeta.
  assert (exec ES.reset s = ES.new LS.new CS.new) as -> by reflexivity.
  split; [reflexivity|].
  unfold eval, exec.
  rewrite (sendEmergencyNotification_rejected e (ES.new LS.new CS.new) NO_CONTACTS)
    by reflexivity.
  repeat split.
Qed.

(** X24.  After a rejected notification [getLastSentMessage] is neither
    [null] nor the message sent before: the newest history entry is the
    failed one, which has no [message] property.  The notification count
    and the messages recorded per phone are as before the call. *)
Theorem X24_last_message_after_rejection (e : ES.env) (s : ES.t) (err : exn) (ph : string) :
  eval CS.validateEmergencyContacts (ES._contactService s) = Throw err →
  let s' := exec (ES.sendEmergencyNotification e) s in
  ES.getLastSentMessage s' = ES.NoMessageProperty ∧
  ES.getNotificationCount s' = ES.getNotificationCount s ∧
  ES.getMessageSentTo ph s' = ES.getMessageSentTo ph s.
Proof.
  intros H. cbv zeta. unfold exec.
  rewrite (sendEmergencyNotification_rejected e s err H).
  unfold ES.getLastSentMessage, rejected_state. cbn [snd ES._notificationHistory].
  rewrite last_snoc. repeat split.
Qed.

Lemma X24_last_message_after_rejection_witness :
  ES.getLastSentMessage
    (exec (ES.sendEmergencyNotification sample_env) (ES.new LS.new CS.new))
  = ES.NoMessageProperty.
Proof.
  apply (X24_last_message_after_rejection sample_env (ES.new LS.new CS.new)
           NO_CONTACTS EmptyString).
  reflexivity.
Defined.

(** X25.  [validate()] of the core reports a valid list exactly when
    [hasContacts()] holds.  After [clearAll()] the list read back is
    empty, [validate()] reports it invalid, and [SOSService.trigger]
    reports the no-contacts failure without changing the SOS state. *)
Theorem X25_clear_contacts (w : EC.world) :
  let w' := exec EC.EmergencyContactManager.clearAll w in
  EC.EmergencyContactManager.validate (EC.state w)
    = EC.EmergencyContactManager.hasContacts (EC.state w) ∧
  EC.EmergencyContactManager.getContacts (EC.state w') = [] ∧
  EC.EmergencyContactManager.validate (EC.state w') = false ∧
  eval EC.SOSService.trigger w'
    = Return (EC.SOSService.Failure EC.NO_EMERGENCY_CONTACTS) ∧
  EC.SystemStateManager.getSOSState (exec EC.SOSService.trigger w')
    = EC.SystemStateManager.getSOSState w.
Proof.
  cbv zeta. split; [|split; [reflexivity|split; [reflexivity|]]].
  - unfold EC.EmergencyContactManager.validate, EC.EmergencyContactManager.hasContacts.
    by destruct (EC.emergencyContacts (EC.state w)).
  - unfold eval, exec. rewrite trigger_eq. cbv zeta. split; reflexivity.
Qed.

(** X26.  [setButtonConfig] accepts a configuration exactly when
    [Validators.isValidButtonConfig] holds of it.  An accepted one has a
    string button and a string action, which are what [getButtonConfig]
    then reads back, and nothing else of the state changes; a rejected
    one throws the invalid-configuration error and the configuration read
    back is the one held before. *)
Theorem X26_button_config (config : jsval) (w : EC.world) :
  (EC.Validators.isValidButtonConfig config = true →
   ∃ b a, EC.Validators.prop config "button" = JStr b ∧
          EC.Validators.prop config "action" = JStr a ∧
          EC.SOSButtonManager.setButtonConfig config w
            = (Return true, with_button_config b a w) ∧
          EC.SOSButtonManager.getButtonConfig
            (EC.state (exec (EC.SOSButtonManager.setButtonConfig config) w))
            = Some {| EC.button := b; EC.action := a |}) ∧
  (EC.Validators.isValidButtonConfig config = false →
   EC.SOSButtonManager.setButtonConfig config w = (Throw InvalidButtonConfigError, w)).
Proof.
  split.
  - intros H. unfold EC.SOSButtonManager.setButtonConfig. rewrite H.
    unfold EC.Validators.isValidButtonConfig in H.
    apply andb_prop in H as [H Ha]. apply andb_prop in H as [_ Hb].
    destruct (EC.Validators.prop config "button") as [| | | |b| |] eqn:Eb; try discriminate Hb.
    destruct (EC.Validators.prop config "action") as [| | | |a| |] eqn:Ea; try discriminate Ha.
    exists b, a. unfold exec. cbn [negb]. repeat split.
  - intros H. unfold EC.SOSButtonManager.setButtonConfig. rewrite H. reflexivity.
Qed.

Lemma X26_button_config_witness :
  EC.SOSButtonManager.setButtonConfig JNull (EC.init 0)
  = (Throw InvalidButtonConfigError, EC.init 0).
Proof.
  apply (proj2 (X26_button_config JNull (EC.init 0))). reflexivity.
Defined.
